(** * mruby/c bytecode loader (src/load.c): model and verified properties

    The loader walks a RITE container held in memory: a 20-byte header, then
    sections tagged "IREP", "LVAR" or "END\0".  An IREP section holds a tree
    of records (mrbc_irep) laid out in depth-first pre-order.

    The development follows load.c function by function.  The C code reads
    through raw pointers without any bound check, so memory is a total map
    from addresses to bytes and a cursor is an address of the 32-bit target
    (the HAL of the repository is hal_stm32: 32-bit int, 32-bit pointers). *)

From Stdlib Require Import ZArith List String Ascii Bool Lia.
Import ListNotations.
Open Scope Z_scope.
Set Warnings "-register-all".

(** ** Machine integers and addresses *)

Definition wrap_unsigned (w v : Z) : Z := v mod 2 ^ w.

Definition wrap_signed (w v : Z) : Z :=
  (v + 2 ^ (w - 1)) mod 2 ^ w - 2 ^ (w - 1).

(** Conversion to C [int] (32-bit two's complement on the target). *)
Definition to_int (v : Z) : Z := wrap_signed 32 v.

Definition ptr := Z.

(** Pointer arithmetic [p + n] in the 32-bit address space. *)
Definition padd (p : ptr) (n : Z) : ptr := wrap_unsigned 32 (p + n).

Definition memory := Z -> Z.

(** [*p] for [const uint8_t *p]. *)
Definition load8 (mem : memory) (p : ptr) : Z := mem (padd p 0) mod 256.

(** Modelled from the spec: [bin_to_uint16] is declared in a header that is
    not part of the sources; section 4.1 makes it a big-endian 16-bit read. *)
Definition bin_to_uint16 (mem : memory) (p : ptr) : Z :=
  Z.lor (Z.shiftl (load8 mem p) 8) (load8 mem (padd p 1)).

(** Modelled from the spec: [bin_to_uint32] is declared in a header that is
    not part of the sources; section 4.1 makes it a big-endian 32-bit read. *)
Definition bin_to_uint32 (mem : memory) (p : ptr) : Z :=
  Z.lor (Z.shiftl (load8 mem p) 24)
    (Z.lor (Z.shiftl (load8 mem (padd p 1)) 16)
       (Z.lor (Z.shiftl (load8 mem (padd p 2)) 8) (load8 mem (padd p 3)))).

Definition bytes_of_string (s : string) : list Z :=
  map (fun c => Z.of_N (N_of_ascii c)) (list_ascii_of_string s).

(** [memcmp(p, s, n)] with [n] the length of [s]: zero exactly when the bytes
    at [p] are those of [s], otherwise the difference at the first mismatch. *)
Fixpoint memcmp (mem : memory) (p : ptr) (s : list Z) : Z :=
  match s with
  | [] => 0
  | b :: s' =>
      if load8 mem p =? b then memcmp mem (padd p 1) s'
      else load8 mem p - b
  end.

Definition tag_RITE02 : list Z := bytes_of_string "RITE02".
Definition tag_MATZ   : list Z := bytes_of_string "MATZ".
Definition tag_0000   : list Z := bytes_of_string "0000".
Definition tag_0300   : list Z := bytes_of_string "0300".
Definition tag_IREP   : list Z := bytes_of_string "IREP".
Definition tag_LVAR   : list Z := bytes_of_string "LVAR".
Definition tag_END    : list Z := bytes_of_string "END" ++ [0].

(** ** Build configuration (vm_config.h switches and NDEBUG) *)

Record build := Build {
  MRBC_USE_STRING : bool;
  MRBC_USE_FLOAT  : bool;
  MRBC_INT64      : bool;
  NDEBUG          : bool
}.

(** enum irep_pool_type *)
Definition IREP_TT_STR   : Z := 0.
Definition IREP_TT_SSTR  : Z := 2.
Definition IREP_TT_INT32 : Z := 1.
Definition IREP_TT_INT64 : Z := 3.
Definition IREP_TT_FLOAT : Z := 5.

(** [sizeof(mrbc_irep_catch_handler)], pinned to 13 by the assertion in
    [load_irep_1]. *)
Definition sizeof_catch_handler : Z := 13.

(** ** Decoded data *)

(** A pool object as the loader leaves it.  [Obj_raw g] is an object whose
    fields were never written: it still holds what the allocator returned. *)
Inductive mrbc_object : Type :=
| Obj_string (str : ptr)
| Obj_fixnum (i : Z)
| Obj_float (d : list Z)
| Obj_raw (g : Z).

(** A child slot [reps[i]] holds a pointer that may be NULL ([None]). *)
Inductive mrbc_irep : Type := Irep {
  nlocals : Z;
  nregs : Z;
  rlen : Z;
  clen : Z;
  ilen : Z;
  plen : Z;
  code : ptr;
  pools : list mrbc_object;
  ptr_to_sym : ptr;
  reps : list (option mrbc_irep)
}.

Definition set_reps (r : mrbc_irep) (cs : list (option mrbc_irep)) : mrbc_irep :=
  Irep (nlocals r) (nregs r) (rlen r) (clen r) (ilen r) (plen r)
       (code r) (pools r) (ptr_to_sym r) cs.

(** ** The machine around the loader

    [heap] lists the results of the coming allocation calls: [Some g] is a
    block (with previous content [g]), [None] is a NULL return; an exhausted
    heap returns NULL.  [console] collects the source lines printed by the
    [mrbc_raise] macro. *)
Record machine := Machine {
  vm_irep : option mrbc_irep;
  vm_mrb : ptr;
  heap : list (option Z);
  console : list Z
}.

Definition set_irep (t : option mrbc_irep) (w : machine) : machine :=
  Machine t (vm_mrb w) (heap w) (console w).
Definition set_mrb (p : ptr) (w : machine) : machine :=
  Machine (vm_irep w) p (heap w) (console w).
Definition set_heap (h : list (option Z)) (w : machine) : machine :=
  Machine (vm_irep w) (vm_mrb w) h (console w).

(** [mrbc_raise(vm, err, msg)]: prints "<raise> file:line" and goes on. *)
Definition mrbc_raise (line : Z) (w : machine) : machine :=
  Machine (vm_irep w) (vm_mrb w) (heap w) (console w ++ [line]).

(** Modelled from the spec: [mrbc_alloc] and [mrbc_irep_alloc] are defined
    outside the sources; section 6 gives the interface, memory or a failure
    signal.  A call takes the next result of the heap; the size asked for
    plays no part in it. *)
Definition mrbc_alloc (w : machine) : option Z * machine :=
  match heap w with
  | [] => (None, w)
  | r :: h => (r, set_heap h w)
  end.

Definition mrbc_irep_alloc (w : machine) : option Z * machine := mrbc_alloc w.

(** ** Outcomes and the loader monad *)

Inductive outcome (A : Type) : Type :=
| Ret (a : A)      (* the call returns *)
| Abort            (* a failed assert stopped the program *)
| Timeout.         (* the model ran out of fuel *)
Arguments Ret {A} a.
Arguments Abort {A}.
Arguments Timeout {A}.

(** A loader action returns a value, or NULL ([None]), in a new machine. *)
Definition loader (A : Type) : Type := machine -> outcome (option A * machine).

Definition ret {A} (a : A) : loader A := fun w => Ret (Some a, w).

Definition bind {A B} (c : loader A) (k : A -> loader B) : loader B :=
  fun w =>
    match c w with
    | Ret (Some a, w') => k a w'
    | Ret (None, w') => Ret (None, w')
    | Abort => Abort
    | Timeout => Timeout
    end.

Notation "x <- c ;; k" := (bind c (fun x => k))
  (at level 61, c at next level, right associativity).
Notation "' pat <- c ;; k" := (bind c (fun x => match x with pat => k end))
  (at level 61, pat pattern, c at next level, right associativity).

(** An allocation whose NULL result is answered by [mrbc_raise] at [line]
    and [return NULL]. *)
Definition alloc_or_null (line : Z) (alloc : machine -> option Z * machine)
  : loader Z :=
  fun w =>
    match alloc w with
    | (Some g, w') => Ret (Some g, w')
    | (None, w') => Ret (None, mrbc_raise line w')
    end.

(** ** load_header *)

Definition load_header (mem : memory) (pos : ptr) (w : machine)
  : Z * ptr * machine :=
  let p := pos in
  if negb (memcmp mem p tag_RITE02 =? 0) then (-1, pos, mrbc_raise 65 w)
  else if negb (memcmp mem (padd p 12) tag_MATZ =? 0) then (-1, pos, mrbc_raise 74 w)
  else if negb (memcmp mem (padd p 16) tag_0000 =? 0) then (-1, pos, mrbc_raise 78 w)
  else (0, padd pos 20, w).

(** ** load_irep_1: one record *)

(** [obj->i = value]: conversion to [mrbc_int], 64 bits wide under
    MRBC_INT64 and 32 bits wide otherwise. *)
Definition to_mrbc_int (cfg : build) (v : Z) : Z :=
  if MRBC_INT64 cfg then wrap_signed 64 v else wrap_signed 32 v.

(** The bytes [memcpy] takes for a double. *)
Definition copy_double (mem : memory) (p : ptr) : list Z :=
  map (fun k => load8 mem (padd p k)) [0; 1; 2; 3; 4; 5; 6; 7].

(** The [switch( tt )] of the pool loop, on a fresh object with content [g];
    [p] points just behind the type byte. *)
Definition pool_switch (cfg : build) (mem : memory) (tt g : Z) (p : ptr)
  : loader (mrbc_object * ptr) :=
  if MRBC_USE_STRING cfg && ((tt =? IREP_TT_STR) || (tt =? IREP_TT_SSTR)) then
    let pool_data_len := to_int (bin_to_uint16 mem p) in
    let p := padd p 2 in
    ret (Obj_string p, padd p (pool_data_len + 1))
  else if tt =? IREP_TT_INT32 then
    let value := bin_to_uint32 mem p in
    let p := padd p 4 in
    ret (Obj_fixnum (to_mrbc_int cfg value), p)
  else if MRBC_USE_FLOAT cfg && (tt =? IREP_TT_FLOAT) then
    let value := copy_double mem p in
    let p := padd p 8 in
    ret (Obj_float value, p)
  else if tt =? IREP_TT_INT64 then
    if MRBC_INT64 cfg then
      let value := wrap_unsigned 64 (bin_to_uint32 mem p) in
      let p := padd p 4 in
      let value := wrap_unsigned 64 (Z.shiftl value 32) in
      let value := Z.lor value (bin_to_uint32 mem p) in
      let p := padd p 4 in
      ret (Obj_fixnum (to_mrbc_int cfg value), p)
    else
      let p := padd p (4 * 2) in
      fun w => Ret (Some (Obj_raw g, p), mrbc_raise 204 w)
  else
    (* default: assert(!"Unknown tt") *)
    if NDEBUG cfg then ret (Obj_raw g, p) else fun _ => Abort.

(** The pool loop [for( i = 0; i < irep->plen; i++ )], [n] entries to go. *)
Fixpoint load_pools (cfg : build) (mem : memory) (n : nat) (p : ptr)
  : loader (list mrbc_object * ptr) :=
  match n with
  | O => ret ([], p)
  | S n' =>
      let tt := load8 mem p in
      let p := padd p 1 in
      g <- alloc_or_null 164 mrbc_alloc ;;
      '(obj, p) <- pool_switch cfg mem tt g p ;;
      '(objs, p) <- load_pools cfg mem n' p ;;
      ret (obj :: objs, p)
  end.

(** The symbol loop [while( --slen >= 0 )], [n] symbols to go. *)
Fixpoint skip_syms (mem : memory) (n : nat) (p : ptr) : ptr :=
  match n with
  | O => p
  | S n' =>
      let s := to_int (bin_to_uint16 mem p) in
      let p := padd p 2 in
      skip_syms mem n' (padd p (s + 1))
  end.

(** [load_irep_1]: the record at [pos] and the cursor behind it, or NULL with
    [*pos] untouched.  The child slots are allocated here and written by
    [load_irep_0]; the record is returned with [reps] still empty. *)
Definition load_irep_1 (cfg : build) (mem : memory) (pos : ptr)
  : loader (mrbc_irep * ptr) :=
  let p := padd pos 4 in
  _ <- alloc_or_null 124 mrbc_irep_alloc ;;
  let nlocals := bin_to_uint16 mem p in let p := padd p 2 in
  let nregs := bin_to_uint16 mem p in let p := padd p 2 in
  let rlen := bin_to_uint16 mem p in let p := padd p 2 in
  let clen := bin_to_uint16 mem p in let p := padd p 2 in
  let ilen := bin_to_uint16 mem p in let p := padd p 2 in
  _ <- (if rlen =? 0 then ret 0 else alloc_or_null 139 mrbc_alloc) ;;
  let code := p in
  let p := padd p (ilen + sizeof_catch_handler * clen) in
  let plen := bin_to_uint16 mem p in let p := padd p 2 in
  _ <- (if plen =? 0 then ret 0 else alloc_or_null 154 mrbc_alloc) ;;
  '(pools, p) <- load_pools cfg mem (Z.to_nat plen) p ;;
  let ptr_to_sym := p in
  let slen := to_int (bin_to_uint16 mem p) in let p := padd p 2 in
  let p := skip_syms mem (Z.to_nat slen) p in
  ret (Irep nlocals nregs rlen clen ilen plen code pools ptr_to_sym [], p).

(** ** load_irep_0: a record and its children *)

(** The child loop [for( i = 0; i < irep->rlen; i++ )], [n] slots to go:
    every result, NULL or not, is stored and the loop goes on. *)
Fixpoint load_reps (child : ptr -> machine -> outcome (option mrbc_irep * ptr * machine))
    (n : nat) (pos : ptr) (w : machine)
  : outcome (list (option mrbc_irep) * ptr * machine) :=
  match n with
  | O => Ret ([], pos, w)
  | S n' =>
      match child pos w with
      | Ret (c, pos1, w1) =>
          match load_reps child n' pos1 w1 with
          | Ret (cs, pos2, w2) => Ret (c :: cs, pos2, w2)
          | Abort => Abort
          | Timeout => Timeout
          end
      | Abort => Abort
      | Timeout => Timeout
      end
  end.

(** [fuel] bounds the nesting depth of the recursion. *)
Fixpoint load_irep_0 (fuel : nat) (cfg : build) (mem : memory) (pos : ptr) (w : machine)
  : outcome (option mrbc_irep * ptr * machine) :=
  match fuel with
  | O => Timeout
  | S f =>
      match load_irep_1 cfg mem pos w with
      | Ret (None, w1) => Ret (None, pos, w1)
      | Ret (Some (irep, p1), w1) =>
          match load_reps (load_irep_0 f cfg mem) (Z.to_nat (rlen irep)) p1 w1 with
          | Ret (cs, p2, w2) => Ret (Some (set_reps irep cs), p2, w2)
          | Abort => Abort
          | Timeout => Timeout
          end
      | Abort => Abort
      | Timeout => Timeout
      end
  end.

(** ** Sections *)

Definition load_irep (fuel : nat) (cfg : build) (mem : memory) (pos : ptr) (w : machine)
  : outcome (Z * ptr * machine) :=
  let p := pos in
  let p := padd p 4 in
  let section_size := to_int (bin_to_uint32 mem p) in
  let p := padd p 4 in
  if negb (memcmp mem p tag_0300 =? 0) then Ret (-1, pos, mrbc_raise 271 w)
  else
    let p := padd p 4 in
    match load_irep_0 fuel cfg mem p w with
    | Ret (t, _, w1) =>
        let w2 := set_irep t w1 in
        match t with
        | None => Ret (-1, pos, w2)
        | Some _ => Ret (0, padd pos section_size, w2)
        end
    | Abort => Abort
    | Timeout => Timeout
    end.

Definition load_lvar (mem : memory) (pos : ptr) (w : machine) : Z * ptr * machine :=
  let p := pos in
  (0, padd pos (bin_to_uint32 mem (padd p 4)), w).

(** ** mrbc_load_mrb *)

(** One pass through the body of [while( ret == 0 )]: [Some] is the state
    after the pass, [None] is [break]. *)
Definition section_step (fuel : nat) (cfg : build) (mem : memory)
    (ret : Z) (ptr : Z) (w : machine)
  : outcome (option (Z * Z * machine)) :=
  if memcmp mem ptr tag_IREP =? 0 then
    match load_irep fuel cfg mem ptr w with
    | Ret s => Ret (Some s)
    | Abort => Abort
    | Timeout => Timeout
    end
  else if memcmp mem ptr tag_LVAR =? 0 then Ret (Some (load_lvar mem ptr w))
  else if memcmp mem ptr tag_END =? 0 then Ret None
  else Ret (Some (ret, ptr, w)).

(** The loop; [fuel] bounds the number of passes (and the depth of each
    tree decode). *)
Fixpoint section_loop (fuel : nat) (cfg : build) (mem : memory)
    (ret : Z) (ptr : Z) (w : machine) : outcome (Z * machine) :=
  if negb (ret =? 0) then Ret (ret, w)
  else
    match fuel with
    | O => Timeout
    | S f =>
        match section_step f cfg mem ret ptr w with
        | Ret (Some (ret', ptr', w')) => section_loop f cfg mem ret' ptr' w'
        | Ret None => Ret (ret, w)
        | Abort => Abort
        | Timeout => Timeout
        end
    end.

Definition mrbc_load_mrb (fuel : nat) (cfg : build) (mem : memory)
    (w : machine) (ptr : Z) : outcome (Z * machine) :=
  let w := set_mrb ptr w in
  let '(ret, ptr, w) := load_header mem ptr w in
  section_loop fuel cfg mem ret ptr w.

(** ** Concrete containers *)

(** The bytes [bytes] placed at address [base], zeroes elsewhere. *)
Definition blob_at (base : ptr) (bytes : list Z) : memory :=
  fun a =>
    if (base <=? a) && (a <? base + Z.of_nat (List.length bytes))
    then nth (Z.to_nat (a - base)) bytes 0
    else 0.

Definition u16 (n : Z) : list Z := [n / 256 mod 256; n mod 256].
Definition u32 (n : Z) : list Z := u16 (n / 65536) ++ u16 n.

(** Identifier and version (8 bytes), 4 ignored bytes, compiler name and
    compiler version. *)
Definition rite_header (magic : string) : list Z :=
  bytes_of_string magic ++ u32 0 ++ tag_MATZ ++ tag_0000.

(** A record without code, catch handlers and symbols: the counts, then
    [plen] pool entries given as raw bytes. *)
Definition record (nlocals nregs rlen plen : Z) (pool : list Z) : list Z :=
  u32 0 ++ u16 nlocals ++ u16 nregs ++ u16 rlen ++ u16 0 ++ u16 0
  ++ u16 plen ++ pool ++ u16 0.

(** An IREP section whose size field is the size of its content. *)
Definition irep_section (rev : string) (records : list Z) : list Z :=
  tag_IREP ++ u32 (12 + Z.of_nat (List.length records))
  ++ bytes_of_string rev ++ records.

Definition flash : ptr := 134217728.

(** A machine with no tree loaded, a silent console and the given heap. *)
Definition fresh (h : list (option Z)) : machine := Machine None 0 h [].

Definition roomy : list (option Z) := repeat (Some 0) 16.

Definition full_build : build := Build true true true false.
Definition release_build : build := Build true true true true.
Definition narrow_build : build := Build true true false false.

Definition leaf : list Z := record 1 2 0 0 [].

(** Scenario A of the specification: one leaf record. *)
Definition scenario_A : list Z :=
  rite_header "RITE0200" ++ irep_section "0300" leaf ++ tag_END.

(** Scenario B: scenario A under the magic "RITE99". *)
Definition scenario_B : list Z :=
  rite_header "RITE9900" ++ irep_section "0300" leaf ++ tag_END.

(** Scenario C: one pool entry with the unused type byte 0x7F. *)
Definition scenario_C : list Z :=
  rite_header "RITE0200" ++ irep_section "0300" (record 1 2 0 1 [127]) ++ tag_END.

(** Scenario D: a root with two leaves (told apart by their counts). *)
Definition scenario_D : list Z :=
  rite_header "RITE0200"
  ++ irep_section "0300" (record 1 2 2 0 [] ++ record 3 4 0 0 [] ++ record 5 6 0 0 [])
  ++ tag_END.

(** Scenario A with the format revision "0200". *)
Definition bad_revision : list Z :=
  rite_header "RITE0200" ++ irep_section "0200" leaf ++ tag_END.

(** A valid header followed by a section tag the loop does not know. *)
Definition stray_section : list Z :=
  rite_header "RITE0200" ++ bytes_of_string "DBG" ++ [0] ++ u32 8 ++ tag_END.

(** One pool entry of type IREP_TT_INT64 holding 0x0000000100000002. *)
Definition int64_pool : list Z :=
  rite_header "RITE0200"
  ++ irep_section "0300" (record 1 2 0 1 ([3] ++ u32 1 ++ u32 2))
  ++ tag_END.

(** A container with two sections: an IREP section that declares 36 bytes
    while its tree takes 30, then an LVAR section of 12 bytes. *)
Definition two_sections : list Z :=
  rite_header "RITE0200"
  ++ irep_section "0300" (leaf ++ [9; 9; 9; 9; 9; 9])
  ++ tag_LVAR ++ u32 12 ++ [7; 7; 7; 7]
  ++ tag_END.

(** The tree of scenario D: the root at offset 32, its children at offsets
    50 and 68, the end of the tree at offset 86. *)
Definition tree_D : mrbc_irep :=
  Irep 1 2 2 0 0 0 134217774 [] 134217776
    [Some (Irep 3 4 0 0 0 0 134217792 [] 134217794 []);
     Some (Irep 5 6 0 0 0 0 134217810 [] 134217812 [])].

(** The status a call hands back, if it returns. *)
Definition status (o : outcome (Z * machine)) : option Z :=
  match o with
  | Ret (r, _) => Some r
  | _ => None
  end.

(** ** Specification-level notions *)

(** The bytes of [s] stand at [p]. *)
Definition has_bytes (mem : memory) (p : ptr) (s : list Z) : Prop :=
  map (fun i => load8 mem (padd p (Z.of_nat i))) (seq 0 (List.length s)) = s.

(** The three fixed tags of the header match. *)
Definition header_ok (mem : memory) (p : ptr) : Prop :=
  has_bytes mem p tag_RITE02 /\
  has_bytes mem (padd p 12) tag_MATZ /\
  has_bytes mem (padd p 16) tag_0000.

(** Every record has as many child slots as it declares. *)
Inductive slots_ok : mrbc_irep -> Prop :=
| Slots_ok r :
    Z.of_nat (List.length (reps r)) = rlen r ->
    Forall (fun c => forall t, c = Some t -> slots_ok t) (reps r) ->
    slots_ok r.

(** No child slot of the tree is NULL. *)
Inductive complete : mrbc_irep -> Prop :=
| Complete r :
    Forall (fun c => exists t, c = Some t /\ complete t) (reps r) ->
    complete r.

(** [in_stream cfg mem pos t pos']: the tree [t] is what stands in the stream
    from [pos] to [pos'] in depth-first pre-order: the root record is the one
    decoded at [pos], its first child starts where the root record ends, and
    every further child starts where the whole subtree of the child before
    it ends. *)
Inductive in_stream (cfg : build) (mem : memory) : ptr -> mrbc_irep -> ptr -> Prop :=
| In_stream pos w r p1 w1 cs pos' :
    load_irep_1 cfg mem pos w = Ret (Some (r, p1), w1) ->
    siblings cfg mem p1 cs pos' ->
    Z.of_nat (List.length cs) = rlen r ->
    in_stream cfg mem pos (set_reps r (map Some cs)) pos'
with siblings (cfg : build) (mem : memory) : ptr -> list mrbc_irep -> ptr -> Prop :=
| Siblings_nil p : siblings cfg mem p [] p
| Siblings_cons p c p1 cs p' :
    in_stream cfg mem p c p1 ->
    siblings cfg mem p1 cs p' ->
    siblings cfg mem p (c :: cs) p'.

(** The records of a tree in depth-first pre-order. *)
Fixpoint preorder (t : mrbc_irep) : list mrbc_irep :=
  match t with
  | Irep _ _ _ _ _ _ _ _ _ cs =>
      t :: flat_map (fun c => match c with
                              | Some t' => preorder t'
                              | None => []
                              end) cs
  end.

Definition preorder_slot (c : option mrbc_irep) : list mrbc_irep :=
  match c with
  | Some t => preorder t
  | None => []
  end.

(** A record without its child slots, as [load_irep_1] delivers it. *)
Definition bare (t : mrbc_irep) : mrbc_irep := set_reps t [].

(** [n] records read from the stream one right behind the other, each the
    way [load_irep_1] reads it. *)
Fixpoint records_in_a_row (cfg : build) (mem : memory) (n : nat) (pos : ptr)
  : loader (list mrbc_irep * ptr) :=
  match n with
  | O => ret ([], pos)
  | S n' =>
      '(r, p1) <- load_irep_1 cfg mem pos ;;
      '(rs, p2) <- records_in_a_row cfg mem n' p1 ;;
      ret (r :: rs, p2)
  end.

(** What the VM holds after a load, relative to the tree [t0] it held
    before: the same tree, or a tree decoded from the stream. *)
Definition tree_from_stream (cfg : build) (mem : memory)
    (t0 : option mrbc_irep) (w : machine) : Prop :=
  vm_irep w = t0 \/
  exists t, vm_irep w = Some t /\ slots_ok t /\
            (complete t -> exists pos pos', in_stream cfg mem pos t pos').

(** The type bytes the switch of a build has a case for. *)
Definition known_tt (cfg : build) (tt : Z) : bool :=
  (MRBC_USE_STRING cfg && ((tt =? IREP_TT_STR) || (tt =? IREP_TT_SSTR)))
  || (tt =? IREP_TT_INT32)
  || (MRBC_USE_FLOAT cfg && (tt =? IREP_TT_FLOAT))
  || (tt =? IREP_TT_INT64).

(** ** Frames and runs *)

(** The part of the machine the decoder reads: the heap. *)
Definition core (w : machine) : machine := Machine None 0 (heap w) [].

(** The machine [w] after a run that took the core of [w] to [w']. *)
Definition rebase (w w' : machine) : machine :=
  Machine (vm_irep w) (vm_mrb w) (heap w') (console w ++ console w').

(** Apply [f] to the machine a call leaves, if it returns. *)
Definition on_machine {A} (f : machine -> machine) (o : outcome (A * machine))
  : outcome (A * machine) :=
  match o with
  | Ret (a, w') => Ret (a, f w')
  | Abort => Abort
  | Timeout => Timeout
  end.

(** An action is framed when it reads nothing but the heap, keeps the VM
    fields and only appends to the console. *)
Definition framed {A} (c : machine -> outcome (A * machine)) : Prop :=
  forall w, c w = on_machine (rebase w) (c (core w)).

(** Two machines during two runs that started with the trees [i1] and [i2]
    in the VM: the heaps are the same, and the trees are the same or still
    the initial ones. *)
Definition same_run (i1 i2 : option mrbc_irep) (v1 v2 : machine) : Prop :=
  heap v1 = heap v2 /\
  (vm_irep v1 = vm_irep v2 \/ (vm_irep v1 = i1 /\ vm_irep v2 = i2)).

(** Two outcomes are of the same kind and, if the calls return, carry the
    same value in machines related by [R]. *)
Definition agree {A} (R : machine -> machine -> Prop) (o1 o2 : outcome (A * machine))
  : Prop :=
  match o1, o2 with
  | Ret (a1, v1), Ret (a2, v2) => a1 = a2 /\ R v1 v2
  | Abort, Abort => True
  | Timeout, Timeout => True
  | _, _ => False
  end.

(** ** Further containers and notions *)

(** A header with another minor version and a nonzero size field. *)
Definition odd_header : list Z :=
  bytes_of_string "RITE0299" ++ [1; 2; 3; 4] ++ tag_MATZ ++ tag_0000.

(** A header directly followed by the end marker. *)
Definition empty_container : list Z := rite_header "RITE0200" ++ tag_END.

(** A header followed by an LVAR section whose size field is zero. *)
Definition lvar_zero : list Z :=
  rite_header "RITE0200" ++ tag_LVAR ++ u32 0 ++ tag_END.

(** The source lines of the [mrbc_raise] calls that are followed by a
    [return] of failure: header, revision, allocations. *)
Definition header_lines : list Z := [65; 74; 78].
Definition alloc_lines : list Z := [124; 139; 154; 164].
Definition failure_lines : list Z := header_lines ++ [271] ++ alloc_lines.

(** The allocation calls a record makes when all of them succeed: the
    record, the child slots if [rlen] is not zero, the pool slots if [plen]
    is not zero, and one object per pool entry. *)
Definition allocs_of (r : mrbc_irep) : nat :=
  1 + (if rlen r =? 0 then 0 else 1) + (if plen r =? 0 then 0 else 1)
  + Z.to_nat (plen r).

(** A pool object whose fields were written by the switch. *)
Definition written (o : mrbc_object) : Prop :=
  match o with
  | Obj_raw _ => False
  | _ => True
  end.

(** An action only takes results from the front of the heap. *)
Definition consumes {A} (c : machine -> outcome (A * machine)) : Prop :=
  forall w a w', c w = Ret (a, w') -> exists used, heap w = used ++ heap w'.

(** The two ways a call can fail to return. *)
Inductive stop : Type := By_assert | By_fuel.

Definition stopped {A} (k : stop) (o : outcome A) : Prop :=
  match k, o with
  | By_assert, Abort => True
  | By_fuel, Timeout => True
  | _, _ => False
  end.

(** An action never stops in the way [k]. *)
Definition never {A} (k : stop) (c : machine -> outcome (A * machine)) : Prop :=
  forall w, ~ stopped k (c w).

(** From [w] to [w']: [vm->mrb] is kept, the console got longer at its end
    and the heap shorter at its front. *)
Definition grows (w w' : machine) : Prop :=
  vm_mrb w' = vm_mrb w /\
  (exists log, console w' = console w ++ log) /\
  (exists used, heap w = used ++ heap w').

(** A NULL return of the action is announced: the last line it printed is
    the line of a failed allocation. *)
Definition loud {A} (c : loader A) : Prop :=
  forall w w',
    c w = Ret (None, w') ->
    exists log line, In line alloc_lines /\ console w' = console w ++ log ++ [line].

(** From [w] to [w'] a section failed: the last line printed is 271, or it
    is the line of a failed allocation and [vm->irep] is NULL. *)
Definition section_failed (w w' : machine) : Prop :=
  exists log line,
    console w' = console w ++ log ++ [line] /\
    (line = 271 \/ (In line alloc_lines /\ vm_irep w' = None)).

(** A header followed by an IREP section whose size field is zero. *)
Definition irep_zero : list Z :=
  rite_header "RITE0200" ++ tag_IREP ++ u32 0 ++ tag_0300 ++ leaf ++ tag_END.

(** One pool entry of type IREP_TT_INT32 holding FF FF FF FF. *)
Definition int32_pool : list Z := [1; 255; 255; 255; 255].

(** ** Pools, stops and section paths *)

(** A root with one INT32 pool entry and one child; the child has a string
    and an INT32 entry. *)
Definition pool_family : list Z :=
  rite_header "RITE0200"
  ++ irep_section "0300"
       (record 1 2 1 1 ([1] ++ u32 7)
        ++ record 3 4 0 2 ([0] ++ u16 2 ++ [104; 105; 0] ++ [1] ++ u32 9))
  ++ tag_END.

(** The tree of [pool_family]. *)
Definition tree_family : mrbc_irep :=
  Irep 1 2 1 0 0 1 134217774 [Obj_fixnum 7] 134217781
    [Some (Irep 3 4 0 0 0 2 134217797 [Obj_string 134217802; Obj_fixnum 9]
             134217810 [])].

(** A heap on which every allocation succeeds, as on [roomy], but whose
    blocks hold other bytes from their previous use. *)
Definition stale : list (option Z) := repeat (Some 165) 16.

(** Whether an allocation result is a block. *)
Definition succeeded (r : option Z) : bool :=
  match r with
  | Some _ => true
  | None => false
  end.

(** The tree a call leaves in the VM, if it returns. *)
Definition loaded (o : outcome (Z * machine)) : option mrbc_irep :=
  match o with
  | Ret (_, w) => vm_irep w
  | _ => None
  end.





(** [section_path mem p q]: the cursor of the section loop gets from [p] to
    [q], passing IREP and LVAR sections by their size fields. *)
Inductive section_path (mem : memory) : Z -> Z -> Prop :=
| Path_here q : section_path mem q q
| Path_section q q' :
    has_bytes mem q tag_IREP \/ has_bytes mem q tag_LVAR ->
    section_path mem (padd q (bin_to_uint32 mem (padd q 4))) q' ->
    section_path mem q q'.

(** * Properties *)

(** ** Address arithmetic *)

Section Arith.

Variable mem : memory.

Lemma padd_padd p a b : padd (padd p a) b = padd p (a + b).
Proof.
  unfold padd, wrap_unsigned.
  rewrite Z.add_mod_idemp_l by lia. f_equal. lia.
Qed.

Lemma padd_0_idem p : padd (padd p 0) 0 = padd p 0.
Proof. rewrite padd_padd. reflexivity. Qed.

Lemma load8_padd_0 p : load8 mem (padd p 0) = load8 mem p.
Proof. unfold load8. now rewrite padd_0_idem. Qed.

Lemma wrap_signed_congr v : exists q, wrap_signed 32 v = v + q * 2 ^ 32.
Proof.
  unfold wrap_signed. exists (- ((v + 2 ^ (32 - 1)) / 2 ^ 32)).
  rewrite Z.mod_eq by lia. lia.
Qed.

(** Adding a value converted to [int] is adding the value. *)
Lemma padd_to_int p v k : padd p (to_int v + k) = padd p (v + k).
Proof.
  unfold to_int. destruct (wrap_signed_congr v) as [q ->].
  unfold padd, wrap_unsigned.
  replace (p + (v + q * 2 ^ 32 + k)) with (p + (v + k) + q * 2 ^ 32) by lia.
  apply Z_mod_plus_full.
Qed.

Lemma padd_to_int_0 p v : padd p (to_int v) = padd p v.
Proof.
  replace (to_int v) with (to_int v + 0) by lia.
  rewrite padd_to_int. f_equal. lia.
Qed.

Lemma load8_nonneg p : 0 <= load8 mem p.
Proof. unfold load8. apply Z.mod_pos_bound. lia. Qed.

Lemma bin_to_uint16_nonneg p : 0 <= bin_to_uint16 mem p.
Proof.
  unfold bin_to_uint16. apply Z.lor_nonneg. split.
  - apply Z.shiftl_nonneg, load8_nonneg.
  - apply load8_nonneg.
Qed.

End Arith.

(** ** memcmp against a tag *)

Lemma has_bytes_cons mem p b s :
  has_bytes mem p (b :: s) <-> load8 mem p = b /\ has_bytes mem (padd p 1) s.
Proof.
  unfold has_bytes. cbn [List.length seq map].
  rewrite <- seq_shift, map_map.
  change (Z.of_nat 0) with 0. rewrite load8_padd_0.
  assert (E : map (fun i => load8 mem (padd p (Z.of_nat (S i)))) (seq 0 (List.length s))
              = map (fun i => load8 mem (padd (padd p 1) (Z.of_nat i))) (seq 0 (List.length s))).
  { apply map_ext. intro i. rewrite padd_padd. do 2 f_equal. lia. }
  rewrite E. split.
  - intro H. injection H as H1 H2. auto.
  - intros [H1 H2]. now rewrite H1, H2.
Qed.

Lemma memcmp_spec mem s : forall p, memcmp mem p s = 0 <-> has_bytes mem p s.
Proof.
  induction s as [|b s IH]; intro p.
  - unfold has_bytes. cbn. tauto.
  - rewrite has_bytes_cons. cbn [memcmp].
    destruct (load8 mem p =? b) eqn:E.
    + apply Z.eqb_eq in E. rewrite IH. tauto.
    + apply Z.eqb_neq in E. split; [lia | tauto].
Qed.

Lemma memcmp_eqb_true mem p s : has_bytes mem p s -> (memcmp mem p s =? 0) = true.
Proof. intro H. apply Z.eqb_eq. now apply memcmp_spec. Qed.

Lemma memcmp_eqb_false mem p s : ~ has_bytes mem p s -> (memcmp mem p s =? 0) = false.
Proof. intro H. apply Z.eqb_neq. intro E. apply H. now apply memcmp_spec. Qed.

(** ** Header validation *)

Lemma load_header_ok mem p w :
  header_ok mem p -> load_header mem p w = (0, padd p 20, w).
Proof.
  intros (H1 & H2 & H3). unfold load_header.
  now rewrite (memcmp_eqb_true _ _ _ H1), (memcmp_eqb_true _ _ _ H2),
    (memcmp_eqb_true _ _ _ H3).
Qed.

Lemma load_header_bad mem p :
  ~ header_ok mem p ->
  exists line, In line [65; 74; 78] /\
    forall w, load_header mem p w = (-1, p, mrbc_raise line w).
Proof.
  intro H. unfold load_header.
  destruct (memcmp mem p tag_RITE02 =? 0) eqn:E1; cbn [negb].
  2: { exists 65. cbn. auto. }
  destruct (memcmp mem (padd p 12) tag_MATZ =? 0) eqn:E2; cbn [negb].
  2: { exists 74. cbn. auto. }
  destruct (memcmp mem (padd p 16) tag_0000 =? 0) eqn:E3; cbn [negb].
  2: { exists 78. cbn. auto. }
  exfalso. apply H.
  apply Z.eqb_eq in E1, E2, E3. repeat split; now apply memcmp_spec.
Qed.

(** C4.  If the six bytes "RITE02", the originator tag "MATZ" or the
    originator version "0000" do not all match, [load_header] returns -1
    without moving the cursor and [mrbc_load_mrb] returns -1 whatever follows
    the header: the machine it leaves has only [vm->mrb] set and one
    diagnostic from [load_header] printed; nothing was allocated and no tree
    was stored.  If the three tags match, [load_header] returns 0 and moves
    the cursor by exactly 20 bytes. *)
Theorem C4_header_validation (cfg : build) (mem : memory) (w : machine) (p : Z) :
  (~ header_ok mem p ->
   exists line, In line [65; 74; 78] /\
     load_header mem p w = (-1, p, mrbc_raise line w) /\
     forall fuel,
       mrbc_load_mrb fuel cfg mem w p = Ret (-1, mrbc_raise line (set_mrb p w)))
  /\
  (header_ok mem p -> load_header mem p w = (0, padd p 20, w)).
Proof.
  split.
  - intro H.
    destruct (load_header_bad mem p H) as (line & Hin & Hh).
    exists line. split; [exact Hin|]. split; [apply Hh|].
    intro fuel. unfold mrbc_load_mrb. rewrite Hh.
    destruct fuel; reflexivity.
  - apply load_header_ok.
Qed.

Lemma C4_header_validation_witness :
  (exists line, In line [65; 74; 78] /\
     load_header (blob_at flash scenario_B) flash (fresh roomy)
       = (-1, flash, mrbc_raise line (fresh roomy)) /\
     forall fuel,
       mrbc_load_mrb fuel full_build (blob_at flash scenario_B) (fresh roomy) flash
       = Ret (-1, mrbc_raise line (set_mrb flash (fresh roomy))))
  /\ load_header (blob_at flash scenario_A) flash (fresh roomy)
     = (0, padd flash 20, fresh roomy).
Proof.
  split.
  - apply (proj1 (C4_header_validation full_build (blob_at flash scenario_B)
                    (fresh roomy) flash)).
    intros [H _]. vm_compute in H. discriminate H.
  - apply (proj2 (C4_header_validation full_build (blob_at flash scenario_A)
                    (fresh roomy) flash)).
    repeat split.
Defined.

(** ** Sections *)

Lemma load_irep_bad_revision cfg mem pos w fuel :
  ~ has_bytes mem (padd pos 8) tag_0300 ->
  load_irep fuel cfg mem pos w = Ret (-1, pos, mrbc_raise 271 w).
Proof.
  intro H. unfold load_irep. rewrite padd_padd. change (4 + 4) with 8.
  now rewrite (memcmp_eqb_false _ _ _ H).
Qed.

(** C5 (amended).  An IREP section whose revision tag is not "0300" makes
    [load_irep] return -1 before any record is decoded: the cursor stays,
    nothing is allocated, [vm->irep] is not written, and the section loop
    and [mrbc_load_mrb] return that -1, the one status every failure of the
    loader has (a bad header included); only the printed source line, 271,
    tells which check failed. *)
Theorem C5_bad_revision_fails (cfg : build) (mem : memory) (w : machine) (pos : Z) :
  has_bytes mem pos tag_IREP ->
  ~ has_bytes mem (padd pos 8) tag_0300 ->
  (forall fuel, load_irep fuel cfg mem pos w = Ret (-1, pos, mrbc_raise 271 w)) /\
  (forall fuel, section_loop (S fuel) cfg mem 0 pos w = Ret (-1, mrbc_raise 271 w)) /\
  (forall p0 w0 fuel,
      header_ok mem p0 -> pos = padd p0 20 -> w = set_mrb p0 w0 ->
      mrbc_load_mrb (S fuel) cfg mem w0 p0 = Ret (-1, mrbc_raise 271 w)).
Proof.
  intros Htag Hrev.
  assert (L : forall fuel, section_loop (S fuel) cfg mem 0 pos w
                           = Ret (-1, mrbc_raise 271 w)).
  { intro fuel. cbn [section_loop Z.eqb negb]. unfold section_step.
    rewrite (memcmp_eqb_true _ _ _ Htag), load_irep_bad_revision by exact Hrev.
    destruct fuel; reflexivity. }
  split; [|split].
  - intro fuel. now apply load_irep_bad_revision.
  - exact L.
  - intros p0 w0 fuel Hh -> ->. unfold mrbc_load_mrb.
    rewrite load_header_ok by exact Hh. apply L.
Qed.

Lemma C5_bad_revision_fails_witness :
  mrbc_load_mrb 3 full_build (blob_at flash bad_revision) (fresh roomy) flash
  = Ret (-1, mrbc_raise 271 (set_mrb flash (fresh roomy))).
Proof.
  refine (proj2 (proj2 (C5_bad_revision_fails full_build (blob_at flash bad_revision)
            (set_mrb flash (fresh roomy)) (padd flash 20) _ _))
            flash (fresh roomy) 2%nat _ eq_refl eq_refl).
  - reflexivity.
  - intro H. vm_compute in H. discriminate H.
  - repeat split.
Defined.

(** C5 as stated fails: a wrong format revision and a wrong magic come back
    to the caller as the same status. *)
Lemma C5_revision_status_not_distinct :
  ~ (status (mrbc_load_mrb 3 full_build (blob_at flash bad_revision) (fresh roomy) flash)
     <> status (mrbc_load_mrb 3 full_build (blob_at flash scenario_B) (fresh roomy) flash)).
Proof. intro H. apply H. vm_compute. reflexivity. Qed.

Lemma lvar_is_not_irep mem pos :
  has_bytes mem pos tag_LVAR -> ~ has_bytes mem pos tag_IREP.
Proof.
  intros H1 H2.
  change tag_LVAR with (76 :: [86; 65; 82]) in H1.
  change tag_IREP with (73 :: [82; 69; 80]) in H2.
  apply has_bytes_cons in H1, H2. lia.
Qed.

(** C6.  With [size] the 32-bit field at offset 4 of the section at [pos]:
    when the tree of an IREP section is decoded, whatever cursor [p_end] the
    decode stops at, [load_irep] returns 0 with the caller's cursor at
    [pos + size]; every return of 0 by [load_irep], and every pass of the
    section loop over an IREP section that returns 0, leaves the cursor
    there.  [load_lvar] returns 0 with the cursor at [pos + size] and the
    machine untouched, and reads nothing of the section but that field. *)
Theorem C6_section_cursor (cfg : build) (mem : memory) (w : machine) (pos : Z) :
  let size := bin_to_uint32 mem (padd pos 4) in
  (forall fuel t p_end w1,
      has_bytes mem (padd pos 8) tag_0300 ->
      load_irep_0 fuel cfg mem (padd pos 12) w = Ret (Some t, p_end, w1) ->
      load_irep fuel cfg mem pos w
      = Ret (0, padd pos size, set_irep (Some t) w1)) /\
  (forall fuel pos' w',
      load_irep fuel cfg mem pos w = Ret (0, pos', w') -> pos' = padd pos size) /\
  (forall fuel ret pos' w',
      has_bytes mem pos tag_IREP ->
      section_step fuel cfg mem ret pos w = Ret (Some (0, pos', w')) ->
      pos' = padd pos size) /\
  load_lvar mem pos w = (0, padd pos size, w) /\
  (forall fuel ret,
      has_bytes mem pos tag_LVAR ->
      section_step fuel cfg mem ret pos w = Ret (Some (0, padd pos size, w))) /\
  (forall mem',
      bin_to_uint32 mem' (padd pos 4) = size ->
      load_lvar mem' pos w = load_lvar mem pos w).
Proof.
  intro size.
  assert (A : forall fuel pos' w',
             load_irep fuel cfg mem pos w = Ret (0, pos', w') -> pos' = padd pos size).
  { intros fuel pos' w'. unfold load_irep. rewrite !padd_padd, padd_to_int_0.
    fold size.
    destruct (negb (memcmp mem (padd pos (4 + 4)) tag_0300 =? 0)).
    { intro H. discriminate H. }
    destruct (load_irep_0 fuel cfg mem (padd pos (4 + 4 + 4)) w)
      as [[[[t|] pe] w1]| |]; intro H; try discriminate H.
    now injection H as <- _. }
  repeat split.
  - intros fuel t p_end w1 Hrev Hdec. unfold load_irep.
    rewrite !padd_padd, padd_to_int_0. fold size.
    change (4 + 4) with 8. rewrite (memcmp_eqb_true _ _ _ Hrev). cbn [negb].
    change (8 + 4) with 12. now rewrite Hdec.
  - exact A.
  - intros fuel ret pos' w' Htag. unfold section_step.
    rewrite (memcmp_eqb_true _ _ _ Htag).
    destruct (load_irep fuel cfg mem pos w) as [[[r q] v]| |] eqn:E;
      intro H; try discriminate H.
    injection H as -> -> ->. exact (A fuel _ _ E).
  - intros fuel ret Htag. unfold section_step.
    rewrite (memcmp_eqb_false _ _ _ (lvar_is_not_irep _ _ Htag)).
    now rewrite (memcmp_eqb_true _ _ _ Htag).
  - intros mem' H. unfold load_lvar. now rewrite H.
Qed.

Lemma C6_section_cursor_witness :
  load_irep 3 full_build (blob_at flash two_sections) (padd flash 20) (fresh roomy)
  = Ret (0, padd flash 56,
         set_irep (Some (Irep 1 2 0 0 0 0 134217774 [] 134217776 []))
                  (fresh (repeat (Some 0) 15)))
  /\ section_step 3 full_build (blob_at flash two_sections) 0 (padd flash 56) (fresh roomy)
     = Ret (Some (0, padd flash 68, fresh roomy)).
Proof.
  split.
  - refine (proj1 (C6_section_cursor full_build (blob_at flash two_sections)
                     (fresh roomy) (padd flash 20)) 3%nat _ (padd flash 50) _ _ _).
    + reflexivity.
    + reflexivity.
  - refine (proj1 (proj2 (proj2 (proj2 (proj2
              (C6_section_cursor full_build (blob_at flash two_sections)
                 (fresh roomy) (padd flash 56)))))) 3%nat 0 _).
    reflexivity.
Defined.

(** ** Pool entries *)

(** C8.  In a build with strings, for a pool entry of type IREP_TT_STR or
    IREP_TT_SSTR with the 16-bit length [L] behind the type byte, the switch
    moves the cursor from behind the type byte by exactly 2 + L + 1 and
    yields a string object pointing behind the length field; the result does
    not depend on which of the two types it is.  Seen from the type byte at
    [q], a one-entry pool loop with memory available ends at
    [q + 1 + 2 + L + 1]. *)
Theorem C8_string_entry (cfg : build) (mem : memory) (tt g : Z) (p : Z) (w : machine) :
  MRBC_USE_STRING cfg = true ->
  tt = IREP_TT_STR \/ tt = IREP_TT_SSTR ->
  pool_switch cfg mem tt g p w
  = Ret (Some (Obj_string (padd p 2), padd p (2 + bin_to_uint16 mem p + 1)), w)
  /\
  (forall q h,
      p = padd q 1 -> load8 mem q = tt -> heap w = Some g :: h ->
      load_pools cfg mem 1 q w
      = Ret (Some ([Obj_string (padd q 3)],
                   padd q (1 + (2 + bin_to_uint16 mem p + 1))),
             set_heap h w)).
Proof.
  intros Hs Htt.
  assert (A : forall v, pool_switch cfg mem tt g p v
    = Ret (Some (Obj_string (padd p 2), padd p (2 + bin_to_uint16 mem p + 1)), v)).
  { intro v. unfold pool_switch. rewrite Hs.
    assert (E : (tt =? IREP_TT_STR) || (tt =? IREP_TT_SSTR) = true).
    { destruct Htt as [-> | ->]; reflexivity. }
    rewrite E. cbn [andb]. unfold ret.
    rewrite padd_to_int, padd_padd. now rewrite Z.add_assoc. }
  split; [apply A|].
  intros q h -> Hq Hh. cbn [load_pools]. unfold bind at 1.
  unfold alloc_or_null, mrbc_alloc. rewrite Hh, Hq.
  unfold bind at 1. rewrite A. unfold bind at 1. cbn [ret].
  now rewrite !padd_padd.
Qed.

Lemma C8_string_entry_witness :
  pool_switch full_build (blob_at flash [0; 2; 104; 105; 0]) IREP_TT_SSTR 0 flash
    (fresh roomy)
  = Ret (Some (Obj_string (padd flash 2), padd flash 5), fresh roomy).
Proof.
  exact (proj1 (C8_string_entry full_build (blob_at flash [0; 2; 104; 105; 0])
                  IREP_TT_SSTR 0 flash (fresh roomy) eq_refl (or_intror eq_refl))).
Defined.

(** ** The section loop on an unknown tag *)

(** C10.  When the four bytes at the cursor are none of "IREP", "LVAR" and
    "END\0", one pass of the loop body changes neither the status nor the
    cursor nor the machine, so the loop started with status 0 never returns,
    whatever fuel it is given; in particular [mrbc_load_mrb] never returns on
    a container whose header is valid and whose first section tag is
    unknown. *)
Theorem C10_unknown_section_spins (cfg : build) (mem : memory) (pos : Z) :
  ~ has_bytes mem pos tag_IREP ->
  ~ has_bytes mem pos tag_LVAR ->
  ~ has_bytes mem pos tag_END ->
  (forall fuel ret w, section_step fuel cfg mem ret pos w = Ret (Some (ret, pos, w))) /\
  (forall fuel w, section_loop fuel cfg mem 0 pos w = Timeout) /\
  (forall fuel w p0,
      header_ok mem p0 -> pos = padd p0 20 ->
      mrbc_load_mrb fuel cfg mem w p0 = Timeout).
Proof.
  intros H1 H2 H3.
  assert (S1 : forall fuel ret w,
             section_step fuel cfg mem ret pos w = Ret (Some (ret, pos, w))).
  { intros. unfold section_step.
    now rewrite (memcmp_eqb_false _ _ _ H1), (memcmp_eqb_false _ _ _ H2),
      (memcmp_eqb_false _ _ _ H3). }
  assert (S2 : forall fuel w, section_loop fuel cfg mem 0 pos w = Timeout).
  { induction fuel as [|fuel IH]; intro w; cbn [section_loop Z.eqb negb].
    - reflexivity.
    - rewrite S1. apply IH. }
  split; [exact S1|]. split; [exact S2|].
  intros fuel w p0 Hh ->. unfold mrbc_load_mrb.
  rewrite load_header_ok by exact Hh. apply S2.
Qed.

Lemma C10_unknown_section_spins_witness :
  mrbc_load_mrb 1000 full_build (blob_at flash stray_section) (fresh roomy) flash
  = Timeout.
Proof.
  refine (proj2 (proj2 (C10_unknown_section_spins full_build
            (blob_at flash stray_section) (padd flash 20) _ _ _))
            1000%nat (fresh roomy) flash _ eq_refl).
  - intro H. vm_compute in H. discriminate H.
  - intro H. vm_compute in H. discriminate H.
  - intro H. vm_compute in H. discriminate H.
  - repeat split.
Defined.

(** ** Pre-order layout of the decoded tree *)

Lemma bind_inv {A B} (c : loader A) (k : A -> loader B) w b w' :
  bind c k w = Ret (Some b, w') ->
  exists a w1, c w = Ret (Some a, w1) /\ k a w1 = Ret (Some b, w').
Proof.
  unfold bind. destruct (c w) as [[[a|] w1]| |]; intro H; try discriminate H.
  eauto.
Qed.

Lemma load_irep_1_shape cfg mem pos w r p1 w1 :
  load_irep_1 cfg mem pos w = Ret (Some (r, p1), w1) ->
  reps r = [] /\ rlen r = bin_to_uint16 mem (padd pos 8) /\ code r = padd pos 14.
Proof.
  unfold load_irep_1. intro H. cbv zeta in H.
  apply bind_inv in H as (a1 & v1 & _ & H).
  apply bind_inv in H as (a2 & v2 & _ & H).
  apply bind_inv in H as (a3 & v3 & _ & H).
  apply bind_inv in H as ([pl pe] & v4 & _ & H).
  unfold ret in H. injection H as <- <- <-. cbn.
  rewrite !padd_padd. auto.
Qed.

Lemma load_reps_layout cfg mem child :
  (forall pos w t pos' w',
      child pos w = Ret (Some t, pos', w') ->
      slots_ok t /\ (complete t -> in_stream cfg mem pos t pos')) ->
  forall n pos w cs pos' w',
    load_reps child n pos w = Ret (cs, pos', w') ->
    List.length cs = n /\
    Forall (fun c => forall t, c = Some t -> slots_ok t) cs /\
    (Forall (fun c => exists t, c = Some t /\ complete t) cs ->
     exists ts, cs = map Some ts /\ siblings cfg mem pos ts pos').
Proof.
  intros Hchild. induction n as [|n IH]; intros pos w cs pos' w' H; cbn in H.
  - injection H as <- <- <-. repeat split; [constructor|].
    intros _. exists []. split; [reflexivity | constructor].
  - destruct (child pos w) as [[[c p1] w1]| |] eqn:Ec; try discriminate H.
    destruct (load_reps child n p1 w1) as [[[cs1 p2] w2]| |] eqn:Er;
      try discriminate H.
    injection H as <- <- <-.
    destruct (IH _ _ _ _ _ Er) as (Hlen & Hslots & Hsib).
    split; [cbn; now rewrite Hlen|]. split.
    + constructor; [|exact Hslots].
      intros t ->. now apply (Hchild _ _ _ _ _ Ec).
    + intro Hall. inversion Hall as [|? ? (t & -> & Ht) Hrest]; subst.
      destruct (Hsib Hrest) as (ts & -> & Hts).
      exists (t :: ts). split; [reflexivity|].
      econstructor; [|exact Hts].
      now apply (Hchild _ _ _ _ _ Ec).
Qed.

Lemma load_irep_0_layout cfg mem :
  forall fuel pos w t pos' w',
    load_irep_0 fuel cfg mem pos w = Ret (Some t, pos', w') ->
    slots_ok t /\ (complete t -> in_stream cfg mem pos t pos').
Proof.
  induction fuel as [|f IH]; intros pos w t pos' w' H; cbn [load_irep_0] in H.
  - discriminate H.
  - destruct (load_irep_1 cfg mem pos w) as [[[[r p1]|] w1]| |] eqn:E1;
      try discriminate H.
    destruct (load_reps (load_irep_0 f cfg mem) (Z.to_nat (rlen r)) p1 w1)
      as [[[cs p2] w2]| |] eqn:Er; try discriminate H.
    injection H as <- <- <-.
    destruct (load_irep_1_shape _ _ _ _ _ _ _ E1) as (_ & Hrlen & _).
    assert (Hpos : 0 <= rlen r) by (rewrite Hrlen; apply bin_to_uint16_nonneg).
    destruct (load_reps_layout cfg mem _ IH _ _ _ _ _ _ Er) as (Hlen & Hslots & Hsib).
    split.
    + constructor; cbn; [lia | exact Hslots].
    + intro Hc. inversion Hc as [? Hall]; subst. cbn in Hall.
      destruct (Hsib Hall) as (ts & -> & Hts).
      econstructor; [exact E1 | exact Hts |].
      rewrite length_map in Hlen. lia.
Qed.

Lemma load_irep_tree cfg mem t0 fuel pos w pos' w' :
  load_irep fuel cfg mem pos w = Ret (0, pos', w') ->
  tree_from_stream cfg mem t0 w'.
Proof.
  unfold load_irep.
  destruct (negb (memcmp mem (padd (padd pos 4) 4) tag_0300 =? 0)).
  { intro H. discriminate H. }
  destruct (load_irep_0 fuel cfg mem (padd (padd (padd pos 4) 4) 4) w)
    as [[[[t|] pe] w1]| |] eqn:E; intro H; try discriminate H.
  injection H as _ <-. right. exists t.
  destruct (load_irep_0_layout _ _ _ _ _ _ _ _ E) as (Hs & Hc).
  split; [reflexivity|]. split; [exact Hs|]. eauto.
Qed.

Lemma section_loop_tree cfg mem t0 :
  forall fuel ret p w w',
    (ret = 0 -> tree_from_stream cfg mem t0 w) ->
    section_loop fuel cfg mem ret p w = Ret (0, w') ->
    tree_from_stream cfg mem t0 w'.
Proof.
  induction fuel as [|f IH]; intros ret p w w' Hinv H; cbn [section_loop] in H;
    destruct (Z.eqb_spec ret 0) as [->|Hne]; cbn [negb] in H;
    try discriminate H; try (injection H as H1 H2; congruence).
  unfold section_step in H.
  destruct (memcmp mem p tag_IREP =? 0).
  - destruct (load_irep f cfg mem p w) as [[[r q] v]| |] eqn:E; try discriminate H.
    apply (IH r q v w'); [|exact H].
    intros ->. exact (load_irep_tree _ _ t0 _ _ _ _ _ E).
  - destruct (memcmp mem p tag_LVAR =? 0).
    + cbn [load_lvar] in H. apply (IH _ _ _ _ (fun _ => Hinv eq_refl) H).
    + destruct (memcmp mem p tag_END =? 0).
      * injection H as <-. now apply Hinv.
      * apply (IH _ _ _ _ (fun _ => Hinv eq_refl) H).
Qed.

(** Reading [a + b] records in a row is reading [a], then [b]. *)
Lemma records_in_a_row_app cfg mem a b :
  forall pos w rs p1 w1 rs' p2 w2,
    records_in_a_row cfg mem a pos w = Ret (Some (rs, p1), w1) ->
    records_in_a_row cfg mem b p1 w1 = Ret (Some (rs', p2), w2) ->
    records_in_a_row cfg mem (a + b) pos w = Ret (Some (rs ++ rs', p2), w2).
Proof.
  induction a as [|a IH]; intros pos w rs p1 w1 rs' p2 w2 Ha Hb.
  - cbn in Ha. unfold ret in Ha. injection Ha as <- <- <-. exact Hb.
  - cbn [records_in_a_row Nat.add] in *.
    apply bind_inv in Ha as ([r q] & v & E1 & Ha).
    apply bind_inv in Ha as ([rs0 q0] & v0 & E2 & Ha).
    unfold ret in Ha. injection Ha as <- <- <-.
    unfold bind at 1. rewrite E1.
    unfold bind at 1. rewrite (IH _ _ _ _ _ _ _ _ E2 Hb). reflexivity.
Qed.

Lemma preorder_unfold t :
  preorder t = t :: flat_map preorder_slot (reps t).
Proof. destruct t. reflexivity. Qed.

Lemma load_reps_in_a_row cfg mem child :
  (forall pos w t pos' w',
      child pos w = Ret (Some t, pos', w') -> complete t ->
      records_in_a_row cfg mem (List.length (preorder t)) pos w
      = Ret (Some (map bare (preorder t), pos'), w')) ->
  forall n pos w cs pos' w',
    load_reps child n pos w = Ret (cs, pos', w') ->
    Forall (fun c => exists t, c = Some t /\ complete t) cs ->
    records_in_a_row cfg mem (List.length (flat_map preorder_slot cs)) pos w
    = Ret (Some (map bare (flat_map preorder_slot cs), pos'), w').
Proof.
  intro Hchild. induction n as [|n IH]; intros pos w cs pos' w' H Hall; cbn in H.
  - injection H as <- <- <-. reflexivity.
  - destruct (child pos w) as [[[c p1] w1]| |] eqn:Ec; try discriminate H.
    destruct (load_reps child n p1 w1) as [[[cs1 p2] w2]| |] eqn:Er;
      try discriminate H.
    injection H as <- <- <-.
    inversion Hall as [|? ? (t & -> & Ht) Hrest]; subst.
    cbn [flat_map preorder_slot]. rewrite length_app, map_app.
    eapply records_in_a_row_app.
    + exact (Hchild _ _ _ _ _ Ec Ht).
    + exact (IH _ _ _ _ _ Er Hrest).
Qed.

Lemma load_irep_0_in_a_row cfg mem :
  forall fuel pos w t pos' w',
    load_irep_0 fuel cfg mem pos w = Ret (Some t, pos', w') -> complete t ->
    records_in_a_row cfg mem (List.length (preorder t)) pos w
    = Ret (Some (map bare (preorder t), pos'), w').
Proof.
  induction fuel as [|f IH]; intros pos w t pos' w' H Hc; cbn [load_irep_0] in H.
  - discriminate H.
  - destruct (load_irep_1 cfg mem pos w) as [[[[r p1]|] w1]| |] eqn:E1;
      try discriminate H.
    destruct (load_reps (load_irep_0 f cfg mem) (Z.to_nat (rlen r)) p1 w1)
      as [[[cs p2] w2]| |] eqn:Er; try discriminate H.
    injection H as <- <- <-.
    destruct (load_irep_1_shape _ _ _ _ _ _ _ E1) as (Hreps & _ & _).
    inversion Hc as [? Hall]; subst. cbn in Hall.
    rewrite preorder_unfold. cbn [List.length map reps set_reps records_in_a_row].
    unfold bind at 1. rewrite E1.
    unfold bind at 1.
    rewrite (load_reps_in_a_row cfg mem _ IH _ _ _ _ _ _ Er Hall).
    unfold ret, bare. cbn. destruct r. cbn in Hreps. now subst.
Qed.

(** X17.  Whenever [load_irep_0] returns a record, every record of the tree
    has exactly as many child slots as its [rlen] declares.  If moreover no
    slot is NULL (every decode step succeeded), the tree is laid out in the
    stream in depth-first pre-order: the record decoded at the cursor comes
    first, slot 0 holds the tree that starts where this record ends, and
    slot i+1 holds the tree that starts where the whole subtree of slot i
    ends; and the records of the tree, listed in pre-order, are exactly the
    records that stand one right behind the other in the stream, read in
    the same machine and ending at the same cursor.  The slot count and the
    layout also hold for the tree that a call of [mrbc_load_mrb] returning 0
    stores in the VM. *)
Theorem complete_tree_in_stream_order (cfg : build) (mem : memory) :
  (forall fuel pos w t pos' w',
      load_irep_0 fuel cfg mem pos w = Ret (Some t, pos', w') ->
      slots_ok t /\
      (complete t ->
       in_stream cfg mem pos t pos' /\
       records_in_a_row cfg mem (List.length (preorder t)) pos w
       = Ret (Some (map bare (preorder t), pos'), w')))
  /\
  (forall fuel w p w',
      mrbc_load_mrb fuel cfg mem w p = Ret (0, w') ->
      tree_from_stream cfg mem (vm_irep w) w').
Proof.
  split.
  - intros fuel pos w t pos' w' H.
    destruct (load_irep_0_layout _ _ _ _ _ _ _ _ H) as [Hs Hl].
    split; [exact Hs|]. intro Hc. split; [exact (Hl Hc)|].
    exact (load_irep_0_in_a_row _ _ _ _ _ _ _ _ H Hc).
  - intros fuel w p w'. unfold mrbc_load_mrb.
    destruct (load_header mem p (set_mrb p w)) as [[r q] v] eqn:E.
    apply section_loop_tree. intros _.
    left. unfold load_header in E.
    repeat match type of E with
           | (if ?b then _ else _) = _ => destruct b
           end; injection E as _ _ <-; reflexivity.
Qed.

Lemma complete_tree_D : complete tree_D.
Proof.
  constructor. cbn.
  repeat (constructor; [eexists; split; [reflexivity|]; constructor; constructor|]).
  constructor.
Defined.

Lemma complete_tree_in_stream_order_witness :
  (slots_ok tree_D /\
   in_stream full_build (blob_at flash scenario_D) (padd flash 32) tree_D (padd flash 86) /\
   records_in_a_row full_build (blob_at flash scenario_D) 3 (padd flash 32) (fresh roomy)
   = Ret (Some (map bare (preorder tree_D), padd flash 86),
          fresh (repeat (Some 0) 12)))
  /\ tree_from_stream full_build (blob_at flash scenario_D) None
       (Machine (Some tree_D) flash (repeat (Some 0) 12) []).
Proof.
  split.
  - destruct (proj1 (complete_tree_in_stream_order full_build (blob_at flash scenario_D))
                3%nat (padd flash 32) (fresh roomy) tree_D (padd flash 86)
                (fresh (repeat (Some 0) 12)) eq_refl) as [Hs Hc].
    split; [exact Hs | exact (Hc complete_tree_D)].
  - exact (proj2 (complete_tree_in_stream_order full_build (blob_at flash scenario_D))
             4%nat (fresh roomy) flash
             (Machine (Some tree_D) flash (repeat (Some 0) 12) []) eq_refl).
Defined.

(** C3 (the code at the failing input).  On scenario D with an allocator
    whose third call fails, [mrbc_load_mrb] returns 0, yet the root, which
    declares two children, has NULL in slot 0 and in slot 1 the record that
    stands first in the stream (the child that is in slot 0 when every
    allocation succeeds); the second record of the stream is in no slot.
    With an allocator that gives out after two blocks the status is 0 again
    and both slots are NULL. *)
Theorem C3_null_slot_breaks_stream_order :
  status (mrbc_load_mrb 3 full_build (blob_at flash scenario_D)
            (fresh [Some 0; Some 0; None; Some 0]) flash) = Some 0
  /\
  option_map reps
    (loaded (mrbc_load_mrb 3 full_build (blob_at flash scenario_D)
               (fresh [Some 0; Some 0; None; Some 0]) flash))
  = Some [None; nth 0 (reps tree_D) None]
  /\
  status (mrbc_load_mrb 3 full_build (blob_at flash scenario_D)
            (fresh [Some 0; Some 0]) flash) = Some 0
  /\
  option_map reps
    (loaded (mrbc_load_mrb 3 full_build (blob_at flash scenario_D)
               (fresh [Some 0; Some 0]) flash))
  = Some [None; None].
Proof. repeat split. Qed.

(** ** Where the loader goes on after a failure *)

(** The default case: under NDEBUG the entry is kept as the allocator
    returned it and the cursor stays behind the type byte; otherwise the
    assertion stops the program. *)
Lemma pool_switch_unknown cfg mem tt g p w :
  known_tt cfg tt = false ->
  pool_switch cfg mem tt g p w
  = if NDEBUG cfg then Ret (Some (Obj_raw g, p), w) else Abort.
Proof.
  unfold known_tt, pool_switch. intro H.
  apply orb_false_elim in H as [H H4].
  apply orb_false_elim in H as [H H3].
  apply orb_false_elim in H as [H1 H2].
  rewrite H1, H2, H3, H4. now destruct (NDEBUG cfg).
Qed.

(** Decide the tests of the switch for the type byte IREP_TT_INT64. *)
Ltac int64_case :=
  change (IREP_TT_INT64 =? IREP_TT_STR) with false;
  change (IREP_TT_INT64 =? IREP_TT_SSTR) with false;
  change (IREP_TT_INT64 =? IREP_TT_INT32) with false;
  change (IREP_TT_INT64 =? IREP_TT_FLOAT) with false;
  change (IREP_TT_INT64 =? IREP_TT_INT64) with true.

(** IREP_TT_INT64 without MRBC_INT64: eight bytes are skipped, line 204 is
    printed, and the switch is left normally with an unwritten object. *)
Lemma pool_switch_int64_narrow cfg mem g p w :
  MRBC_INT64 cfg = false ->
  pool_switch cfg mem IREP_TT_INT64 g p w
  = Ret (Some (Obj_raw g, padd p 8), mrbc_raise 204 w).
Proof.
  intro H. unfold pool_switch. rewrite H.
  int64_case.
  now rewrite !andb_false_r.
Qed.

(** IREP_TT_INT64 with MRBC_INT64: the first four bytes are the high half,
    the next four the low half. *)
Lemma pool_switch_int64_wide cfg mem g p w :
  MRBC_INT64 cfg = true ->
  pool_switch cfg mem IREP_TT_INT64 g p w
  = Ret (Some (Obj_fixnum
                 (wrap_signed 64
                    (Z.lor (wrap_unsigned 64
                              (Z.shiftl (wrap_unsigned 64 (bin_to_uint32 mem p)) 32))
                           (bin_to_uint32 mem (padd p 4)))),
               padd p 8), w).
Proof.
  intro H. unfold pool_switch, to_mrbc_int. rewrite H.
  int64_case.
  rewrite !andb_false_r. cbn [orb]. unfold ret. now rewrite padd_padd.
Qed.

(** C1 (the code at the failing input).  On scenario C, whose only pool
    entry has the type byte 0x7F: a build without NDEBUG is stopped by the
    assertion, no status is returned; a build with NDEBUG returns 0 and
    stores a tree whose pool entry is the unwritten object. *)
Theorem C1_unknown_tag_not_rejected :
  mrbc_load_mrb 3 full_build (blob_at flash scenario_C) (fresh roomy) flash = Abort
  /\
  mrbc_load_mrb 3 release_build (blob_at flash scenario_C) (fresh roomy) flash
  = Ret (0, Machine (Some (Irep 1 2 0 0 0 1 134217774 [Obj_raw 0] 134217777 []))
                    flash (repeat (Some 0) 13) []).
Proof. split; reflexivity. Qed.

(** C2 (the code at the failing input).  On scenario D with a heap whose
    third allocation fails (the record of the first child): the failure is
    printed at line 124, yet the root is returned with NULL in slot 0, the
    record that stands first in the stream is decoded into slot 1, and
    [mrbc_load_mrb] returns 0. *)
Theorem C2_child_failure_not_propagated :
  mrbc_load_mrb 3 full_build (blob_at flash scenario_D)
    (fresh [Some 0; Some 0; None; Some 0]) flash
  = Ret (0, Machine
              (Some (Irep 1 2 2 0 0 0 134217774 [] 134217776
                       [None; Some (Irep 3 4 0 0 0 0 134217792 [] 134217794 [])]))
              flash [] [124]).
Proof. reflexivity. Qed.

(** C7 (the code at the failing input).  A pool entry of type IREP_TT_INT64
    holding 0x0000000100000002: a build without MRBC_INT64 skips its eight
    bytes and prints line 204 but returns 0 with the entry unwritten; a
    build with MRBC_INT64 stores 2^32 + 2. *)
Theorem C7_int64_narrow_build_goes_on :
  mrbc_load_mrb 3 narrow_build (blob_at flash int64_pool) (fresh roomy) flash
  = Ret (0, Machine (Some (Irep 1 2 0 0 0 1 134217774 [Obj_raw 0] 134217785 []))
                    flash (repeat (Some 0) 13) [204])
  /\
  mrbc_load_mrb 3 full_build (blob_at flash int64_pool) (fresh roomy) flash
  = Ret (0, Machine (Some (Irep 1 2 0 0 0 1 134217774 [Obj_fixnum 4294967298]
                             134217785 []))
                    flash (repeat (Some 0) 13) []).
Proof. split; reflexivity. Qed.

(** ** What a decode depends on *)

Lemma rebase_core w : rebase w (core w) = w.
Proof. destruct w. unfold rebase, core. cbn. now rewrite app_nil_r. Qed.

Lemma rebase_rebase w w1 v : rebase (rebase w w1) v = rebase w (rebase w1 v).
Proof. unfold rebase. cbn. now rewrite app_assoc. Qed.

Lemma core_rebase w w1 : core (rebase w w1) = core w1.
Proof. reflexivity. Qed.

Lemma on_machine_rebase {A} w w1 (o : outcome (A * machine)) :
  on_machine (rebase (rebase w w1)) o = on_machine (rebase w) (on_machine (rebase w1) o).
Proof. destruct o as [[a v]| |]; cbn; [now rewrite rebase_rebase | easy | easy]. Qed.

(** A framed action run from [rebase w w1] is the action run from [w1],
    rebased on [w]. *)
Lemma framed_shift {A} (c : machine -> outcome (A * machine)) w w1 :
  framed c -> c (rebase w w1) = on_machine (rebase w) (c w1).
Proof.
  intro H. rewrite (H (rebase w w1)), (H w1), core_rebase.
  apply on_machine_rebase.
Qed.

Lemma framed_ret {A} (a : A) : framed (ret a).
Proof. intro w. unfold ret. cbn. now rewrite rebase_core. Qed.

Lemma framed_bind {A B} (c : loader A) (k : A -> loader B) :
  framed c -> (forall a, framed (k a)) -> framed (bind c k).
Proof.
  intros Hc Hk w. unfold bind. rewrite (Hc w).
  destruct (c (core w)) as [[[a|] w1]| |]; cbn; try reflexivity.
  now apply framed_shift.
Qed.

Lemma framed_alloc_or_null line : framed (alloc_or_null line mrbc_alloc).
Proof.
  intro w. destruct w as [t m h c]. unfold alloc_or_null, mrbc_alloc. cbn.
  destruct h as [|[g|] h]; unfold rebase, set_heap, core, mrbc_raise; cbn;
    rewrite ?app_nil_r; reflexivity.
Qed.

Lemma framed_raise {A} (a : A) line :
  framed (fun w => Ret (Some a, mrbc_raise line w)).
Proof. intro w. destruct w. reflexivity. Qed.

Lemma framed_abort {A} : framed (fun _ : machine => @Abort (option A * machine)).
Proof. intro w. reflexivity. Qed.

Create HintDb framed.
#[local] Hint Resolve framed_ret framed_raise framed_abort framed_alloc_or_null : framed.

Section Frames.

Variables (cfg : build) (mem : memory).

Lemma framed_pool_switch tt g p : framed (pool_switch cfg mem tt g p).
Proof.
  unfold pool_switch.
  repeat match goal with
         | |- framed (if ?b then _ else _) => destruct b
         end; auto with framed.
Qed.

Lemma framed_load_pools n : forall p, framed (load_pools cfg mem n p).
Proof.
  induction n as [|n IH]; intro p; cbn [load_pools]; auto with framed.
  apply framed_bind; auto with framed. intro g.
  apply framed_bind; [apply framed_pool_switch|]. intros [obj q].
  apply framed_bind; [apply IH|]. intros [objs q'].
  auto with framed.
Qed.

Lemma framed_load_irep_1 pos : framed (load_irep_1 cfg mem pos).
Proof.
  unfold load_irep_1. cbv zeta.
  apply framed_bind; [apply framed_alloc_or_null|]. intros _.
  apply framed_bind; [destruct (_ =? 0); auto with framed|]. intros _.
  apply framed_bind; [destruct (_ =? 0); auto with framed|]. intros _.
  apply framed_bind; [apply framed_load_pools|]. intros [pl q].
  auto with framed.
Qed.

Lemma framed_load_reps child n :
  (forall pos, framed (child pos)) -> forall pos, framed (load_reps child n pos).
Proof.
  intro Hc. induction n as [|n IH]; intros pos w; cbn [load_reps].
  - cbn. now rewrite rebase_core.
  - rewrite (Hc pos w).
    destruct (child pos (core w)) as [[[c p1] w1]| |]; cbn; try reflexivity.
    rewrite (framed_shift _ w w1 (IH p1)).
    destruct (load_reps child n p1 w1) as [[[cs p2] w2]| |]; reflexivity.
Qed.

Lemma framed_load_irep_0 :
  forall fuel pos, framed (load_irep_0 fuel cfg mem pos).
Proof.
  induction fuel as [|f IH]; intros pos w; cbn [load_irep_0].
  - reflexivity.
  - rewrite (framed_load_irep_1 pos w).
    destruct (load_irep_1 cfg mem pos (core w)) as [[[[r p1]|] w1]| |];
      cbn; try reflexivity.
    rewrite (framed_shift _ w w1 (framed_load_reps _ _ IH p1)).
    destruct (load_reps (load_irep_0 f cfg mem) (Z.to_nat (rlen r)) p1 w1)
      as [[[cs p2] w2]| |]; reflexivity.
Qed.

End Frames.

Lemma core_eq v1 v2 : heap v1 = heap v2 -> core v1 = core v2.
Proof. unfold core. now intros ->. Qed.

Lemma load_irep_agree i1 i2 fuel cfg mem pos v1 v2 :
  same_run i1 i2 v1 v2 ->
  agree (same_run i1 i2) (load_irep fuel cfg mem pos v1) (load_irep fuel cfg mem pos v2).
Proof.
  intros [Hh Ht]. unfold load_irep.
  destruct (negb (memcmp mem (padd (padd pos 4) 4) tag_0300 =? 0)).
  { cbn. split; [reflexivity|]. split; assumption. }
  rewrite (framed_load_irep_0 cfg mem fuel _ v1), (framed_load_irep_0 cfg mem fuel _ v2).
  rewrite (core_eq _ _ Hh).
  destruct (load_irep_0 fuel cfg mem _ (core v2)) as [[[[t|] pe] w1]| |]; cbn; auto.
  - split; [reflexivity|]. split; [reflexivity | now left].
  - split; [reflexivity|]. split; [reflexivity | now left].
Qed.

Lemma section_loop_agree i1 i2 cfg mem :
  forall fuel ret p v1 v2,
    same_run i1 i2 v1 v2 ->
    agree (same_run i1 i2) (section_loop fuel cfg mem ret p v1)
                           (section_loop fuel cfg mem ret p v2).
Proof.
  induction fuel as [|f IH]; intros ret p v1 v2 Hs; cbn [section_loop];
    destruct (negb (ret =? 0)); cbn; auto.
  unfold section_step.
  destruct (memcmp mem p tag_IREP =? 0).
  - pose proof (load_irep_agree i1 i2 f cfg mem p v1 v2 Hs) as Ha.
    destruct (load_irep f cfg mem p v1) as [[[r1 q1] u1]| |],
             (load_irep f cfg mem p v2) as [[[r2 q2] u2]| |]; cbn in Ha;
      try contradiction; cbn; auto.
    destruct Ha as [E Hu]. injection E as <- <-. now apply IH.
  - destruct (memcmp mem p tag_LVAR =? 0); [cbn; now apply IH|].
    destruct (memcmp mem p tag_END =? 0); [cbn; auto | now apply IH].
Qed.

Lemma mrbc_load_mrb_agree cfg mem fuel w1 w2 p :
  heap w1 = heap w2 ->
  agree (same_run (vm_irep w1) (vm_irep w2))
    (mrbc_load_mrb fuel cfg mem w1 p) (mrbc_load_mrb fuel cfg mem w2 p).
Proof.
  intro Hh. unfold mrbc_load_mrb, load_header.
  repeat match goal with
         | |- context [if ?b then _ else _] => destruct b
         end;
    apply section_loop_agree; split; cbn; auto.
Qed.

(** ** More fuel changes nothing once a call returns or aborts *)

Lemma load_reps_mono child1 child2 :
  (forall pos w, child1 pos w <> Timeout -> child2 pos w = child1 pos w) ->
  forall n pos w,
    load_reps child1 n pos w <> Timeout ->
    load_reps child2 n pos w = load_reps child1 n pos w.
Proof.
  intro Hc. induction n as [|n IH]; intros pos w H; cbn [load_reps] in *.
  - reflexivity.
  - destruct (child1 pos w) as [[[c p1] w1]| |] eqn:E1; try congruence.
    + rewrite (Hc pos w), E1 by congruence.
      destruct (load_reps child1 n p1 w1) as [[[cs p2] w2]| |] eqn:E2;
        try congruence; rewrite IH, E2 by congruence; reflexivity.
    + rewrite (Hc pos w), E1 by congruence. reflexivity.
Qed.

Lemma load_irep_0_step cfg mem :
  forall f pos w,
    load_irep_0 f cfg mem pos w <> Timeout ->
    load_irep_0 (S f) cfg mem pos w = load_irep_0 f cfg mem pos w.
Proof.
  induction f as [|f IH]; intros pos w H.
  - now contradiction H.
  - cbn [load_irep_0] in H. cbn [load_irep_0].
    destruct (load_irep_1 cfg mem pos w) as [[[[r p1]|] w1]| |]; try reflexivity.
    rewrite (load_reps_mono _ _ IH); [reflexivity|].
    destruct (load_reps (load_irep_0 f cfg mem) (Z.to_nat (rlen r)) p1 w1);
      congruence.
Qed.

Lemma load_irep_step fuel cfg mem pos w :
  load_irep fuel cfg mem pos w <> Timeout ->
  load_irep (S fuel) cfg mem pos w = load_irep fuel cfg mem pos w.
Proof.
  unfold load_irep.
  destruct (negb (memcmp mem (padd (padd pos 4) 4) tag_0300 =? 0)); [reflexivity|].
  intro H. rewrite load_irep_0_step; [reflexivity|].
  destruct (load_irep_0 fuel cfg mem _ w); congruence.
Qed.

Lemma section_loop_step cfg mem :
  forall f ret p w,
    section_loop f cfg mem ret p w <> Timeout ->
    section_loop (S f) cfg mem ret p w = section_loop f cfg mem ret p w.
Proof.
  induction f as [|f IH]; intros ret p w H.
  - cbn [section_loop] in *. destruct (negb (ret =? 0)); congruence.
  - cbn [section_loop] in H. cbn [section_loop].
    destruct (negb (ret =? 0)); [reflexivity|].
    assert (E : section_step (S f) cfg mem ret p w = section_step f cfg mem ret p w).
    { unfold section_step in *.
      destruct (memcmp mem p tag_IREP =? 0); [|reflexivity].
      rewrite load_irep_step; [reflexivity|].
      destruct (load_irep f cfg mem p w); congruence. }
    rewrite E.
    destruct (section_step f cfg mem ret p w) as [[[[r q] v]|]| |]; try reflexivity.
    now apply IH.
Qed.

Lemma section_loop_mono cfg mem f k ret p w :
  section_loop f cfg mem ret p w <> Timeout ->
  section_loop (k + f) cfg mem ret p w = section_loop f cfg mem ret p w.
Proof.
  intro H. induction k as [|k IH]; [reflexivity|].
  cbn [Nat.add]. rewrite section_loop_step; [exact IH | now rewrite IH].
Qed.

Lemma mrbc_load_mrb_mono cfg mem f k w p :
  mrbc_load_mrb f cfg mem w p <> Timeout ->
  mrbc_load_mrb (k + f) cfg mem w p = mrbc_load_mrb f cfg mem w p.
Proof.
  unfold mrbc_load_mrb. destruct (load_header mem p (set_mrb p w)) as [[r q] v].
  apply section_loop_mono.
Qed.

(** ** Determinism *)

(** Two returning calls on the same memory at the same address, from
    machines whose heaps are equal (the same results pending, and the same
    previous contents in the blocks), whatever their VM fields, console and
    fuel, return the same status, leave the same heap, and leave equal trees
    in the VM (or, if no tree was stored, each VM keeps the tree it had).
    A second call started from the machine the first call left, with the
    heap put back, returns the same status and leaves an equal tree. *)
Lemma equal_heaps_give_equal_loads (cfg : build) (mem : memory) (p : Z) :
  (forall w1 w2 f1 f2 r1 r2 w1' w2',
      heap w1 = heap w2 ->
      mrbc_load_mrb f1 cfg mem w1 p = Ret (r1, w1') ->
      mrbc_load_mrb f2 cfg mem w2 p = Ret (r2, w2') ->
      r1 = r2 /\ heap w1' = heap w2' /\
      (vm_irep w1' = vm_irep w2' \/
       (vm_irep w1' = vm_irep w1 /\ vm_irep w2' = vm_irep w2)))
  /\
  (forall w fuel r1 w1,
      mrbc_load_mrb fuel cfg mem w p = Ret (r1, w1) ->
      exists w2,
        mrbc_load_mrb fuel cfg mem (set_heap (heap w) w1) p = Ret (r1, w2) /\
        vm_irep w2 = vm_irep w1).
Proof.
  split.
  - intros w1 w2 f1 f2 r1 r2 w1' w2' Hh H1 H2.
    assert (E1 : mrbc_load_mrb (f2 + f1) cfg mem w1 p = Ret (r1, w1')).
    { rewrite mrbc_load_mrb_mono; [exact H1 | congruence]. }
    assert (E2 : mrbc_load_mrb (f2 + f1) cfg mem w2 p = Ret (r2, w2')).
    { rewrite Nat.add_comm, mrbc_load_mrb_mono; [exact H2 | congruence]. }
    pose proof (mrbc_load_mrb_agree cfg mem (f2 + f1) w1 w2 p Hh) as Ha.
    rewrite E1, E2 in Ha. cbn in Ha. unfold same_run in Ha. tauto.
  - intros w fuel r1 w1 H1.
    pose proof (mrbc_load_mrb_agree cfg mem fuel w (set_heap (heap w) w1) p eq_refl) as Ha.
    rewrite H1 in Ha.
    destruct (mrbc_load_mrb fuel cfg mem (set_heap (heap w) w1) p) as [[r2 w2]| |];
      cbn in Ha; try contradiction.
    destruct Ha as (-> & _ & Ht). exists w2. split; [reflexivity|].
    cbn in Ht. destruct Ht as [Ht | [_ Ht]]; congruence.
Qed.

(** C9 (the code at the failing input).  Two loads of the same buffer, on
    which every allocation succeeds, do not give equal trees when a pool
    object is left unwritten: the object shows what its block held before.
    On scenario C in a build with NDEBUG, and on an INT64 entry in a build
    without MRBC_INT64, both loads return 0 and the trees differ in that
    object. *)
Theorem C9_unwritten_object_differs :
  map succeeded roomy = map succeeded stale
  /\
  mrbc_load_mrb 3 release_build (blob_at flash scenario_C) (fresh roomy) flash
  = Ret (0, Machine (Some (Irep 1 2 0 0 0 1 134217774 [Obj_raw 0] 134217777 []))
                    flash (repeat (Some 0) 13) [])
  /\
  mrbc_load_mrb 3 release_build (blob_at flash scenario_C) (fresh stale) flash
  = Ret (0, Machine (Some (Irep 1 2 0 0 0 1 134217774 [Obj_raw 165] 134217777 []))
                    flash (repeat (Some 165) 13) [])
  /\
  loaded (mrbc_load_mrb 3 release_build (blob_at flash scenario_C) (fresh roomy) flash)
  <> loaded (mrbc_load_mrb 3 release_build (blob_at flash scenario_C) (fresh stale) flash)
  /\
  loaded (mrbc_load_mrb 3 narrow_build (blob_at flash int64_pool) (fresh roomy) flash)
  <> loaded (mrbc_load_mrb 3 narrow_build (blob_at flash int64_pool) (fresh stale) flash).
Proof.
  split; [reflexivity|]. split; [reflexivity|]. split; [reflexivity|].
  split; intro H; vm_compute in H; discriminate H.
Qed.

(** * Further properties of the loader *)

(** ** What the header check reads *)

Lemma memcmp_ext mem mem' s :
  forall p,
    (forall i, 0 <= i < Z.of_nat (List.length s) ->
               load8 mem (padd p i) = load8 mem' (padd p i)) ->
    memcmp mem p s = memcmp mem' p s.
Proof.
  induction s as [|b s IH]; intros p H; [reflexivity|].
  cbn [memcmp].
  assert (E : load8 mem p = load8 mem' p).
  { rewrite <- (load8_padd_0 mem p), <- (load8_padd_0 mem' p).
    apply H. cbn [List.length]. lia. }
  rewrite E. rewrite (IH (padd p 1)); [reflexivity|].
  intros i Hi. rewrite padd_padd. apply H. cbn [List.length]. lia.
Qed.

(** X1.  [load_header] looks at bytes 0 to 5 and 12 to 19 of the header
    only: two memories that agree there get the same status, cursor and
    diagnostic, whatever the minor version (bytes 6, 7) and the four bytes
    in front of the compiler name are. *)
Theorem load_header_ignores_minor_and_size (mem mem' : memory) (p : Z) (w : machine) :
  (forall k, 0 <= k < 6 \/ 12 <= k < 20 ->
             load8 mem (padd p k) = load8 mem' (padd p k)) ->
  load_header mem p w = load_header mem' p w.
Proof.
  intro H. unfold load_header.
  rewrite (memcmp_ext mem mem' tag_RITE02 p),
          (memcmp_ext mem mem' tag_MATZ (padd p 12)),
          (memcmp_ext mem mem' tag_0000 (padd p 16)); [reflexivity| | |].
  - intros i Hi. rewrite padd_padd. apply H. cbn in Hi. lia.
  - intros i Hi. rewrite padd_padd. apply H. cbn in Hi. lia.
  - intros i Hi. apply H. cbn in Hi. lia.
Qed.

Lemma load_header_ignores_minor_and_size_witness :
  load_header (blob_at flash scenario_A) flash (fresh roomy)
  = load_header (blob_at flash odd_header) flash (fresh roomy).
Proof.
  apply load_header_ignores_minor_and_size.
  intros k Hk.
  assert (E : k = 0 \/ k = 1 \/ k = 2 \/ k = 3 \/ k = 4 \/ k = 5 \/ k = 12 \/
              k = 13 \/ k = 14 \/ k = 15 \/ k = 16 \/ k = 17 \/ k = 18 \/ k = 19)
    by lia.
  repeat (destruct E as [-> | E]; [reflexivity|]). subst k. reflexivity.
Defined.

(** ** The end marker and the empty container *)

Lemma end_is_not_irep mem pos :
  has_bytes mem pos tag_END -> ~ has_bytes mem pos tag_IREP.
Proof.
  intros H1 H2.
  change tag_END with (69 :: [78; 68; 0]) in H1.
  change tag_IREP with (73 :: [82; 69; 80]) in H2.
  apply has_bytes_cons in H1, H2. lia.
Qed.

Lemma end_is_not_lvar mem pos :
  has_bytes mem pos tag_END -> ~ has_bytes mem pos tag_LVAR.
Proof.
  intros H1 H2.
  change tag_END with (69 :: [78; 68; 0]) in H1.
  change tag_LVAR with (76 :: [86; 65; 82]) in H2.
  apply has_bytes_cons in H1, H2. lia.
Qed.

(** X2.  A valid header directly followed by "END\0" is a successful load
    that does nothing: the status is 0, nothing is allocated or printed, and
    [vm->irep] keeps whatever it held before (NULL on a fresh VM). *)
Theorem empty_container_loads_nothing (cfg : build) (mem : memory) (w : machine)
    (p : Z) (fuel : nat) :
  header_ok mem p ->
  has_bytes mem (padd p 20) tag_END ->
  mrbc_load_mrb (S fuel) cfg mem w p = Ret (0, set_mrb p w).
Proof.
  intros Hh He. unfold mrbc_load_mrb. rewrite load_header_ok by exact Hh.
  cbn [section_loop Z.eqb negb]. unfold section_step.
  rewrite (memcmp_eqb_false _ _ _ (end_is_not_irep _ _ He)),
          (memcmp_eqb_false _ _ _ (end_is_not_lvar _ _ He)),
          (memcmp_eqb_true _ _ _ He).
  reflexivity.
Qed.

Lemma empty_container_loads_nothing_witness :
  mrbc_load_mrb 1 release_build (blob_at flash empty_container) (fresh []) flash
  = Ret (0, set_mrb flash (fresh [])).
Proof.
  apply empty_container_loads_nothing; repeat split.
Defined.

(** ** An LVAR section of size zero *)

Lemma has_bytes_padd_0 mem p s : has_bytes mem (padd p 0) s <-> has_bytes mem p s.
Proof.
  unfold has_bytes.
  assert (E : map (fun i => load8 mem (padd (padd p 0) (Z.of_nat i)))
                  (seq 0 (List.length s))
              = map (fun i => load8 mem (padd p (Z.of_nat i))) (seq 0 (List.length s))).
  { apply map_ext. intro i. now rewrite padd_padd. }
  now rewrite E.
Qed.

(** X3.  An LVAR section whose size field is zero is never left: a pass of
    the loop over it returns status 0 at the same address, so the loop, and
    [mrbc_load_mrb] on a container whose first section it is, return for no
    amount of fuel. *)
Theorem lvar_of_size_zero_spins (cfg : build) (mem : memory) (pos : Z) :
  has_bytes mem pos tag_LVAR ->
  bin_to_uint32 mem (padd pos 4) = 0 ->
  (forall fuel w, section_loop fuel cfg mem 0 pos w = Timeout) /\
  (forall fuel w p0,
      header_ok mem p0 -> pos = padd p0 20 ->
      mrbc_load_mrb fuel cfg mem w p0 = Timeout).
Proof.
  intros Ht Hz.
  assert (L : forall fuel q w,
             has_bytes mem q tag_LVAR -> bin_to_uint32 mem (padd q 4) = 0 ->
             section_loop fuel cfg mem 0 q w = Timeout).
  { induction fuel as [|f IH]; intros q w Hq Hs; cbn [section_loop Z.eqb negb].
    - reflexivity.
    - unfold section_step.
      rewrite (memcmp_eqb_false _ _ _ (lvar_is_not_irep _ _ Hq)),
              (memcmp_eqb_true _ _ _ Hq).
      unfold load_lvar. rewrite Hs. apply IH.
      + now apply has_bytes_padd_0.
      + rewrite padd_padd. exact Hs. }
  split.
  - intros fuel w. now apply L.
  - intros fuel w p0 Hh ->. unfold mrbc_load_mrb.
    rewrite load_header_ok by exact Hh. now apply L.
Qed.

Lemma lvar_of_size_zero_spins_witness :
  mrbc_load_mrb 1000 full_build (blob_at flash lvar_zero) (fresh roomy) flash = Timeout.
Proof.
  refine (proj2 (lvar_of_size_zero_spins full_build (blob_at flash lvar_zero)
                   (padd flash 20) _ _) 1000%nat (fresh roomy) flash _ eq_refl).
  - reflexivity.
  - reflexivity.
  - repeat split.
Defined.

(** ** The heap is only consumed, the console only extended *)

Lemma consumes_ret {A} (a : A) : consumes (ret a).
Proof. intros w b w' H. injection H as _ <-. now exists []. Qed.

Lemma consumes_bind {A B} (c : loader A) (k : A -> loader B) :
  consumes c -> (forall a, consumes (k a)) -> consumes (bind c k).
Proof.
  intros Hc Hk w b w' H. unfold bind in H.
  destruct (c w) as [[[a|] w1]| |] eqn:E; try discriminate H.
  - destruct (Hc _ _ _ E) as [u1 H1]. destruct (Hk a _ _ _ H) as [u2 H2].
    exists (u1 ++ u2). now rewrite H1, H2, app_assoc.
  - injection H as _ <-. exact (Hc _ _ _ E).
Qed.

Lemma consumes_alloc_or_null line : consumes (alloc_or_null line mrbc_alloc).
Proof.
  intros w a w' H. unfold alloc_or_null, mrbc_alloc in H.
  destruct (heap w) as [|[g|] h] eqn:E; injection H as _ <-; cbn.
  - now exists [].
  - now exists [Some g].
  - now exists [None].
Qed.

Lemma consumes_raise {A} (a : A) line :
  consumes (fun w => Ret (Some a, mrbc_raise line w)).
Proof. intros w b w' H. injection H as _ <-. now exists []. Qed.

Lemma consumes_abort {A} : consumes (fun _ : machine => @Abort (option A * machine)).
Proof. intros w b w' H. discriminate H. Qed.

Create HintDb consumes.
#[local] Hint Resolve consumes_ret consumes_raise consumes_abort
  consumes_alloc_or_null : consumes.

Section Consumption.

Variables (cfg : build) (mem : memory).

Lemma consumes_pool_switch tt g p : consumes (pool_switch cfg mem tt g p).
Proof.
  unfold pool_switch.
  repeat match goal with
         | |- consumes (if ?b then _ else _) => destruct b
         end; auto with consumes.
Qed.

Lemma consumes_load_pools n : forall p, consumes (load_pools cfg mem n p).
Proof.
  induction n as [|n IH]; intro p; cbn [load_pools]; auto with consumes.
  apply consumes_bind; auto with consumes. intro g.
  apply consumes_bind; [apply consumes_pool_switch|]. intros [obj q].
  apply consumes_bind; [apply IH|]. intros [objs q'].
  auto with consumes.
Qed.

Lemma consumes_load_irep_1 pos : consumes (load_irep_1 cfg mem pos).
Proof.
  unfold load_irep_1. cbv zeta.
  apply consumes_bind; [apply consumes_alloc_or_null|]. intros _.
  apply consumes_bind; [destruct (_ =? 0); auto with consumes|]. intros _.
  apply consumes_bind; [destruct (_ =? 0); auto with consumes|]. intros _.
  apply consumes_bind; [apply consumes_load_pools|]. intros [pl q].
  auto with consumes.
Qed.

Lemma consumes_load_reps child n :
  (forall pos, consumes (child pos)) -> forall pos, consumes (load_reps child n pos).
Proof.
  intro Hc. induction n as [|n IH]; intros pos w a w' H; cbn [load_reps] in H.
  - injection H as _ <-. now exists [].
  - destruct (child pos w) as [[[c p1] w1]| |] eqn:E1; try discriminate H.
    destruct (load_reps child n p1 w1) as [[[cs p2] w2]| |] eqn:E2;
      try discriminate H.
    injection H as _ <-.
    destruct (Hc _ _ _ _ E1) as [u1 H1]. destruct (IH _ _ _ _ E2) as [u2 H2].
    exists (u1 ++ u2). now rewrite H1, H2, app_assoc.
Qed.

Lemma consumes_load_irep_0 : forall fuel pos, consumes (load_irep_0 fuel cfg mem pos).
Proof.
  induction fuel as [|f IH]; intros pos w a w' H; cbn [load_irep_0] in H.
  - discriminate H.
  - destruct (load_irep_1 cfg mem pos w) as [[[[r p1]|] w1]| |] eqn:E1;
      try discriminate H.
    + destruct (load_reps (load_irep_0 f cfg mem) (Z.to_nat (rlen r)) p1 w1)
        as [[[cs p2] w2]| |] eqn:E2; try discriminate H.
      injection H as _ <-.
      destruct (consumes_load_irep_1 _ _ _ _ E1) as [u1 H1].
      destruct (consumes_load_reps _ _ IH _ _ _ _ E2) as [u2 H2].
      exists (u1 ++ u2). now rewrite H1, H2, app_assoc.
    + injection H as _ <-. exact (consumes_load_irep_1 _ _ _ _ E1).
Qed.

End Consumption.

Lemma grows_refl w : grows w w.
Proof. repeat split; [exists [] | exists []]; [now rewrite app_nil_r | reflexivity]. Qed.

Lemma grows_trans w1 w2 w3 : grows w1 w2 -> grows w2 w3 -> grows w1 w3.
Proof.
  intros (M1 & [l1 C1] & [u1 H1]) (M2 & [l2 C2] & [u2 H2]). repeat split.
  - congruence.
  - exists (l1 ++ l2). now rewrite C2, C1, app_assoc.
  - exists (u1 ++ u2). now rewrite H1, H2, app_assoc.
Qed.

Lemma grows_raise line w : grows w (mrbc_raise line w).
Proof. repeat split; [now exists [line] | now exists []]. Qed.

Lemma load_irep_0_grows fuel cfg mem pos w a w' :
  load_irep_0 fuel cfg mem pos w = Ret (a, w') ->
  grows w w' /\ vm_irep w' = vm_irep w.
Proof.
  intro H. pose proof (consumes_load_irep_0 cfg mem fuel pos _ _ _ H) as Hu.
  rewrite (framed_load_irep_0 cfg mem fuel pos w) in H.
  destruct (load_irep_0 fuel cfg mem pos (core w)) as [[b w1]| |];
    try discriminate H.
  cbn in H. injection H as _ <-. repeat split; [|exact Hu].
  now exists (console w1).
Qed.

Lemma load_irep_grows fuel cfg mem pos w r q w' :
  load_irep fuel cfg mem pos w = Ret (r, q, w') ->
  grows w w' /\ (r = 0 \/ r = -1).
Proof.
  unfold load_irep.
  destruct (negb (memcmp mem (padd (padd pos 4) 4) tag_0300 =? 0)).
  { intro H. injection H as <- _ <-. split; [apply grows_raise | now right]. }
  destruct (load_irep_0 fuel cfg mem _ w) as [[[t pe] w1]| |] eqn:E;
    intro H; try discriminate H.
  destruct (load_irep_0_grows _ _ _ _ _ _ _ E) as [(M & C & U) _].
  destruct t; injection H as <- _ <-; (split; [repeat split; assumption | auto]).
Qed.

Lemma section_loop_grows cfg mem :
  forall fuel ret p w r w',
    ret = 0 \/ ret = -1 ->
    section_loop fuel cfg mem ret p w = Ret (r, w') ->
    grows w w' /\ (r = 0 \/ r = -1).
Proof.
  induction fuel as [|f IH]; intros ret p w r w' Hret H; cbn [section_loop] in H;
    destruct (negb (ret =? 0));
    try discriminate H;
    try (injection H as <- <-; split; [apply grows_refl | exact Hret]).
  unfold section_step in H.
  destruct (memcmp mem p tag_IREP =? 0).
  - destruct (load_irep f cfg mem p w) as [[[r1 q] v]| |] eqn:E; try discriminate H.
    destruct (load_irep_grows _ _ _ _ _ _ _ _ E) as [G1 Hr1].
    destruct (IH _ _ _ _ _ Hr1 H) as [G2 Hr]. split; [|exact Hr].
    exact (grows_trans _ _ _ G1 G2).
  - destruct (memcmp mem p tag_LVAR =? 0).
    + cbn [load_lvar] in H. apply (IH _ _ _ _ _ (or_introl eq_refl) H).
    + destruct (memcmp mem p tag_END =? 0).
      * injection H as <- <-. split; [apply grows_refl | exact Hret].
      * apply (IH _ _ _ _ _ Hret H).
Qed.

(** X4.  Whenever [mrbc_load_mrb] returns, the status is 0 or -1,
    [vm->mrb] is the address it was given, the console is the old console
    with lines added at its end, and the heap is the old heap with results
    taken from its front: the loader frees nothing and takes back
    nothing, also when it fails. *)
Theorem load_only_grows (cfg : build) (mem : memory) (fuel : nat)
    (w : machine) (p : Z) (r : Z) (w' : machine) :
  mrbc_load_mrb fuel cfg mem w p = Ret (r, w') ->
  (r = 0 \/ r = -1) /\
  vm_mrb w' = p /\
  (exists log, console w' = console w ++ log) /\
  (exists used, heap w = used ++ heap w').
Proof.
  unfold mrbc_load_mrb.
  destruct (load_header mem p (set_mrb p w)) as [[r0 q] v] eqn:E. intro H.
  assert (G0 : grows (set_mrb p w) v /\ (r0 = 0 \/ r0 = -1)).
  { unfold load_header in E.
    repeat match type of E with
           | (if ?b then _ else _) = _ => destruct b
           end; injection E as <- _ <-;
      (split; [first [apply grows_raise | apply grows_refl] | auto]). }
  destruct G0 as [G0 Hr0].
  destruct (section_loop_grows _ _ _ _ _ _ _ _ Hr0 H) as [G1 Hr].
  destruct (grows_trans _ _ _ G0 G1) as (M & C & U).
  split; [exact Hr|]. split; [exact M|]. split; assumption.
Qed.

Lemma load_only_grows_witness :
  (0 = 0 \/ 0 = -1) /\
  vm_mrb (Machine (Some tree_D) flash (repeat (Some 0) 12) []) = flash /\
  (exists log, console (Machine (Some tree_D) flash (repeat (Some 0) 12) [])
               = console (fresh roomy) ++ log) /\
  (exists used, heap (fresh roomy)
                = used ++ heap (Machine (Some tree_D) flash (repeat (Some 0) 12) [])).
Proof.
  exact (load_only_grows full_build (blob_at flash scenario_D) 3 (fresh roomy) flash 0
           (Machine (Some tree_D) flash (repeat (Some 0) 12) []) eq_refl).
Defined.

(** ** What a record takes from the heap *)

Lemma alloc_or_null_some line w a w' :
  alloc_or_null line mrbc_alloc w = Ret (Some a, w') ->
  heap w = Some a :: heap w' /\ console w' = console w.
Proof.
  unfold alloc_or_null, mrbc_alloc.
  destruct (heap w) as [|[g|] h] eqn:E; intro H; try discriminate H.
  injection H as <- <-. auto.
Qed.

Lemma optional_alloc_some line (n : Z) w a w' :
  (if n =? 0 then ret 0 else alloc_or_null line mrbc_alloc) w = Ret (Some a, w') ->
  exists gs, heap w = map Some gs ++ heap w' /\
             List.length gs = if n =? 0 then 0%nat else 1%nat.
Proof.
  destruct (n =? 0); intro H.
  - injection H as _ <-. now exists [].
  - apply alloc_or_null_some in H as [H _]. now exists [a].
Qed.

Lemma pool_switch_heap cfg mem tt g p w a w' :
  pool_switch cfg mem tt g p w = Ret (a, w') -> heap w' = heap w.
Proof.
  unfold pool_switch.
  repeat match goal with
         | |- context [if ?b then _ else _] => destruct b
         end; intro H; try discriminate H; injection H as _ <-; reflexivity.
Qed.

Lemma load_pools_takes cfg mem n :
  forall p w pl pe w',
    load_pools cfg mem n p w = Ret (Some (pl, pe), w') ->
    List.length pl = n /\
    exists gs, heap w = map Some gs ++ heap w' /\ List.length gs = n.
Proof.
  induction n as [|n IH]; intros p w pl pe w' H; cbn [load_pools] in H.
  - injection H as <- _ <-. split; [reflexivity|]. now exists [].
  - apply bind_inv in H as (g & v1 & E1 & H).
    apply bind_inv in H as ([obj q] & v2 & E2 & H).
    apply bind_inv in H as ([objs q'] & v3 & E3 & H).
    injection H as <- _ <-.
    apply alloc_or_null_some in E1 as [E1 _].
    apply pool_switch_heap in E2.
    destruct (IH _ _ _ _ _ E3) as (Hl & gs & Hh & Hg).
    split; [cbn; now rewrite Hl|].
    exists (g :: gs). split; [|cbn; now rewrite Hg].
    rewrite E1, <- E2, Hh. reflexivity.
Qed.

Lemma ret_inv {A B} (a a' : A) (b b' : B) (w w' : machine) :
  ret (a, b) w = Ret (Some (a', b'), w') -> a = a' /\ b = b' /\ w = w'.
Proof. unfold ret. intro H. injection H as -> -> ->. auto. Qed.

Lemma load_irep_1_takes (cfg : build) (mem : memory) (pos : Z)
    (w : machine) (r : mrbc_irep) (p1 : Z) (w1 : machine) :
  load_irep_1 cfg mem pos w = Ret (Some (r, p1), w1) ->
  (exists gs, heap w = map Some gs ++ heap w1 /\ List.length gs = allocs_of r) /\
  Z.of_nat (List.length (pools r)) = plen r /\
  0 <= rlen r /\ 0 <= plen r.
Proof.
  unfold load_irep_1. intro H. cbv zeta in H.
  apply bind_inv in H as (a1 & v1 & E1 & H).
  apply bind_inv in H as (a2 & v2 & E2 & H).
  apply bind_inv in H as (a3 & v3 & E3 & H).
  apply bind_inv in H as ([pl pe] & v4 & E4 & H).
  apply ret_inv in H as (<- & _ & <-).
  apply alloc_or_null_some in E1 as [E1 _].
  apply optional_alloc_some in E2 as (g2 & E2 & L2).
  apply optional_alloc_some in E3 as (g3 & E3 & L3).
  apply load_pools_takes in E4 as (Lp & g4 & E4 & L4).
  cbv beta iota delta [allocs_of rlen plen pools].
  split; [|split; [|split]].
  - exists (a1 :: g2 ++ g3 ++ g4). split.
    + rewrite E1, E2, E3, E4. cbn. now rewrite !map_app, <- !app_assoc.
    + cbn [List.length]. rewrite !length_app, L2, L3, L4.
      repeat match goal with
             | |- context [if ?b then _ else _] => destruct b
             end; lia.
  - rewrite Lp. rewrite Z2Nat.id; [reflexivity | apply bin_to_uint16_nonneg].
  - apply bin_to_uint16_nonneg.
  - apply bin_to_uint16_nonneg.
Qed.

(** X5.  A call of [load_irep_1] that returns a record has taken exactly
    [allocs_of] results from the front of the heap, all of them blocks: one
    for the record, one for the child slots unless [rlen] is 0, one for the
    pool slots unless [plen] is 0, and one per pool entry.  The record has
    exactly [plen] pool objects, [rlen] and [plen] are not negative, and
    its code pointer stands 14 bytes behind the start of the record. *)
Theorem load_irep_1_allocations (cfg : build) (mem : memory) (pos : Z)
    (w : machine) (r : mrbc_irep) (p1 : Z) (w1 : machine) :
  load_irep_1 cfg mem pos w = Ret (Some (r, p1), w1) ->
  (exists gs, heap w = map Some gs ++ heap w1 /\ List.length gs = allocs_of r) /\
  Z.of_nat (List.length (pools r)) = plen r /\
  0 <= rlen r /\ 0 <= plen r /\
  code r = padd pos 14.
Proof.
  intro H.
  destruct (load_irep_1_takes _ _ _ _ _ _ _ H) as (Hh & Hp & Hr & Hl).
  destruct (load_irep_1_shape _ _ _ _ _ _ _ H) as (_ & _ & Hc).
  repeat split; assumption.
Qed.

Lemma load_irep_1_allocations_witness :
  (exists gs, heap (fresh roomy) = map Some gs ++ heap (fresh (repeat (Some 0) 13)) /\
              List.length gs
              = allocs_of (Irep 1 2 0 0 0 1 134217774 [Obj_fixnum 4294967298]
                             134217785 [])) /\
  Z.of_nat (List.length (pools (Irep 1 2 0 0 0 1 134217774 [Obj_fixnum 4294967298]
                                  134217785 [])))
  = plen (Irep 1 2 0 0 0 1 134217774 [Obj_fixnum 4294967298] 134217785 []) /\
  0 <= rlen (Irep 1 2 0 0 0 1 134217774 [Obj_fixnum 4294967298] 134217785 []) /\
  0 <= plen (Irep 1 2 0 0 0 1 134217774 [Obj_fixnum 4294967298] 134217785 []) /\
  code (Irep 1 2 0 0 0 1 134217774 [Obj_fixnum 4294967298] 134217785 [])
  = padd (padd flash 32) 14.
Proof.
  exact (load_irep_1_allocations full_build (blob_at flash int64_pool) (padd flash 32)
           (fresh roomy)
           (Irep 1 2 0 0 0 1 134217774 [Obj_fixnum 4294967298] 134217785 [])
           (padd flash 59) (fresh (repeat (Some 0) 13)) eq_refl).
Defined.

(** ** Calls that always come back *)

Lemma never_ret {A} k (a : A) : never k (ret a).
Proof. intros w H. destruct k; exact H. Qed.

Lemma never_bind {A B} k (c : loader A) (f : A -> loader B) :
  never k c -> (forall a, never k (f a)) -> never k (bind c f).
Proof.
  intros Hc Hf w. unfold bind. specialize (Hc w).
  destruct (c w) as [[[a|] w1]| |]; [apply Hf | | exact Hc | exact Hc].
  destruct k; intro H; exact H.
Qed.

Lemma never_alloc_or_null k line : never k (alloc_or_null line mrbc_alloc).
Proof.
  intros w. unfold alloc_or_null, mrbc_alloc.
  destruct (heap w) as [|[g|] h]; destruct k; intro H; exact H.
Qed.

Lemma never_raise {A} k (a : A) line :
  never k (fun w => Ret (Some a, mrbc_raise line w)).
Proof. intros w H. destruct k; exact H. Qed.

Lemma never_times_out_abort {A} :
  never By_fuel (fun _ : machine => @Abort (option A * machine)).
Proof. intros w H. exact H. Qed.

Create HintDb never.
#[local] Hint Resolve never_ret never_raise never_alloc_or_null
  never_times_out_abort : never.

Section Comes_back.

Variables (cfg : build) (mem : memory) (k : stop).

(** Only the assertion of the default case stops a record decode, and only
    in a build without NDEBUG. *)
Hypothesis no_assert : k = By_fuel \/ NDEBUG cfg = true.

Lemma never_pool_switch tt g p : never k (pool_switch cfg mem tt g p).
Proof.
  unfold pool_switch.
  destruct no_assert as [-> | ->].
  - repeat match goal with
           | |- never _ (if ?b then _ else _) => destruct b
           end; auto with never.
  - repeat match goal with
           | |- never _ (if ?b then _ else _) => destruct b
           end; auto with never.
Qed.

Lemma never_load_pools n : forall p, never k (load_pools cfg mem n p).
Proof.
  induction n as [|n IH]; intro p; cbn [load_pools]; auto with never.
  apply never_bind; auto with never. intro g.
  apply never_bind; [apply never_pool_switch|]. intros [obj q].
  apply never_bind; [apply IH|]. intros [objs q'].
  auto with never.
Qed.

Lemma never_load_irep_1 pos : never k (load_irep_1 cfg mem pos).
Proof.
  unfold load_irep_1. cbv zeta.
  apply never_bind; [apply never_alloc_or_null|]. intros _.
  apply never_bind; [destruct (_ =? 0); auto with never|]. intros _.
  apply never_bind; [destruct (_ =? 0); auto with never|]. intros _.
  apply never_bind; [apply never_load_pools|]. intros [pl q].
  auto with never.
Qed.

End Comes_back.

Lemma load_reps_comes_back child n b :
  (forall pos w, (List.length (heap w) <= b)%nat -> child pos w <> Timeout) ->
  (forall pos, consumes (child pos)) ->
  forall pos w,
    (List.length (heap w) <= b)%nat -> load_reps child n pos w <> Timeout.
Proof.
  intros Hc Hu. induction n as [|n IH]; intros pos w Hb; cbn [load_reps].
  - discriminate.
  - specialize (Hc pos w Hb).
    destruct (child pos w) as [[[c p1] w1]| |] eqn:E; try congruence.
    destruct (Hu _ _ _ _ E) as [used Hh].
    assert (Hb1 : (List.length (heap w1) <= b)%nat).
    { rewrite Hh, length_app in Hb. lia. }
    specialize (IH p1 w1 Hb1).
    destruct (load_reps child n p1 w1) as [[[cs p2] w2]| |]; congruence.
Qed.

Lemma load_irep_0_returns (cfg : build) (mem : memory) :
  forall (fuel : nat) (pos : Z) (w : machine),
    (List.length (heap w) < fuel)%nat ->
    load_irep_0 fuel cfg mem pos w <> Timeout.
Proof.
  induction fuel as [|f IH]; intros pos w Hf; [lia|].
  cbn [load_irep_0].
  pose proof (never_load_irep_1 cfg mem By_fuel (or_introl eq_refl) pos w) as Hn.
  destruct (load_irep_1 cfg mem pos w) as [[[[r p1]|] w1]| |] eqn:E1;
    try discriminate; [|now contradiction Hn].
  destruct (load_irep_1_takes _ _ _ _ _ _ _ E1) as ((gs & Hh & Hg) & _).
  assert (Hb : (List.length (heap w1) <= pred f)%nat).
  { rewrite Hh, length_app, length_map, Hg in Hf. unfold allocs_of in Hf. lia. }
  assert (Hr : load_reps (load_irep_0 f cfg mem) (Z.to_nat (rlen r)) p1 w1 <> Timeout).
  { apply (load_reps_comes_back _ _ (pred f)); [| |exact Hb].
    - intros q v Hv. apply IH.
      rewrite Hh, length_app, length_map, Hg in Hf. unfold allocs_of in Hf. lia.
    - intro q. apply consumes_load_irep_0. }
  destruct (load_reps (load_irep_0 f cfg mem) (Z.to_nat (rlen r)) p1 w1)
    as [[[cs p2] w2]| |]; congruence.
Qed.

(** X6.  The recursion of [load_irep_0] is bounded by the heap: every
    level takes a block for its record before it descends, so with more
    fuel than the heap has pending results the call comes back (with a
    record, with NULL, or stopped by the assertion) on every memory
    content, however deep the stream claims the tree to be; and so does
    [load_irep] around it. *)
Theorem load_irep_0_comes_back (cfg : build) (mem : memory) (fuel : nat)
    (pos : Z) (w : machine) :
  (List.length (heap w) < fuel)%nat ->
  load_irep_0 fuel cfg mem pos w <> Timeout /\
  load_irep fuel cfg mem pos w <> Timeout.
Proof.
  intro Hf. split; [now apply load_irep_0_returns|].
  unfold load_irep.
  destruct (negb (memcmp mem (padd (padd pos 4) 4) tag_0300 =? 0)); [discriminate|].
  pose proof (load_irep_0_returns cfg mem fuel (padd (padd (padd pos 4) 4) 4) w Hf)
    as H.
  destruct (load_irep_0 fuel cfg mem (padd (padd (padd pos 4) 4) 4) w)
    as [[[[t|] pe] w1]| |]; congruence.
Qed.

Lemma load_irep_0_comes_back_witness :
  load_irep_0 3 full_build (blob_at flash scenario_D) (padd flash 32)
    (fresh [Some 0; Some 0]) <> Timeout /\
  load_irep 3 full_build (blob_at flash scenario_D) (padd flash 32)
    (fresh [Some 0; Some 0]) <> Timeout.
Proof.
  apply load_irep_0_comes_back. cbn. lia.
Defined.

(** ** Where the assertion stops a load *)













(** ** Properties of every record of a returned tree *)

Section Records.

Variables (cfg : build) (mem : memory) (P : mrbc_irep -> Prop).

Hypothesis P_record :
  forall pos w r p1 w1 cs,
    load_irep_1 cfg mem pos w = Ret (Some (r, p1), w1) -> P (set_reps r cs).

Lemma load_reps_records child n :
  (forall pos w t pos' w',
      child pos w = Ret (Some t, pos', w') -> Forall P (preorder t)) ->
  forall pos w cs pos' w',
    load_reps child n pos w = Ret (cs, pos', w') ->
    Forall P (flat_map preorder_slot cs).
Proof.
  intro Hc. induction n as [|n IH]; intros pos w cs pos' w' H; cbn in H.
  - injection H as <- _ _. constructor.
  - destruct (child pos w) as [[[c p1] w1]| |] eqn:Ec; try discriminate H.
    destruct (load_reps child n p1 w1) as [[[cs1 p2] w2]| |] eqn:Er;
      try discriminate H.
    injection H as <- _ _. cbn [flat_map]. apply Forall_app. split.
    + destruct c as [t|]; [exact (Hc _ _ _ _ _ Ec) | constructor].
    + exact (IH _ _ _ _ _ Er).
Qed.

Lemma load_irep_0_records :
  forall fuel pos w t pos' w',
    load_irep_0 fuel cfg mem pos w = Ret (Some t, pos', w') ->
    Forall P (preorder t).
Proof.
  induction fuel as [|f IH]; intros pos w t pos' w' H; cbn [load_irep_0] in H.
  - discriminate H.
  - destruct (load_irep_1 cfg mem pos w) as [[[[r p1]|] w1]| |] eqn:E1;
      try discriminate H.
    destruct (load_reps (load_irep_0 f cfg mem) (Z.to_nat (rlen r)) p1 w1)
      as [[[cs p2] w2]| |] eqn:Er; try discriminate H.
    injection H as <- _ _. rewrite preorder_unfold. constructor.
    + exact (P_record _ _ _ _ _ cs E1).
    + exact (load_reps_records _ _ IH _ _ _ _ _ Er).
Qed.

End Records.

(** X8.  Every record of a tree returned by [load_irep_0], at any depth and
    also next to NULL slots, has exactly as many pool objects as its [plen]
    field says. *)
Theorem pool_counts_match (cfg : build) (mem : memory) (fuel : nat) (pos : Z)
    (w : machine) (t : mrbc_irep) (pos' : Z) (w' : machine) :
  load_irep_0 fuel cfg mem pos w = Ret (Some t, pos', w') ->
  Forall (fun r => Z.of_nat (List.length (pools r)) = plen r) (preorder t).
Proof.
  apply load_irep_0_records.
  intros q v r p1 v1 cs E.
  exact (proj1 (proj2 (load_irep_1_takes _ _ _ _ _ _ _ E))).
Qed.

Lemma pool_counts_match_witness :
  Forall (fun r => Z.of_nat (List.length (pools r)) = plen r) (preorder tree_family).
Proof.
  exact (pool_counts_match full_build (blob_at flash pool_family) 3 (padd flash 32)
           (fresh roomy) tree_family (padd flash 84) (fresh (repeat (Some 0) 8))
           eq_refl).
Defined.

Lemma pool_switch_written cfg mem tt g p w o q w' :
  NDEBUG cfg = false -> MRBC_INT64 cfg = true ->
  pool_switch cfg mem tt g p w = Ret (Some (o, q), w') -> written o.
Proof.
  intros Hn Hi. unfold pool_switch. rewrite Hn, Hi.
  repeat match goal with
         | |- context [if ?b then _ else _] => destruct b
         end; intro H; try discriminate H;
    apply ret_inv in H as (<- & _ & _); exact I.
Qed.

Lemma load_pools_written cfg mem n :
  NDEBUG cfg = false -> MRBC_INT64 cfg = true ->
  forall p w pl pe w',
    load_pools cfg mem n p w = Ret (Some (pl, pe), w') -> Forall written pl.
Proof.
  intros Hn Hi. induction n as [|n IH]; intros p w pl pe w' H; cbn [load_pools] in H.
  - apply ret_inv in H as (<- & _ & _). constructor.
  - apply bind_inv in H as (g & v1 & _ & H).
    apply bind_inv in H as ([obj q] & v2 & E2 & H).
    apply bind_inv in H as ([objs q'] & v3 & E3 & H).
    apply ret_inv in H as (<- & _ & _). constructor.
    + exact (pool_switch_written _ _ _ _ _ _ _ _ _ Hn Hi E2).
    + exact (IH _ _ _ _ _ E3).
Qed.

(** X9.  In a build without NDEBUG and with MRBC_INT64, no pool object of
    a returned tree is left unwritten: every entry of every record was set
    by one of the cases of the switch. *)
Theorem checked_wide_build_writes_every_object (cfg : build) (mem : memory)
    (fuel : nat) (pos : Z) (w : machine) (t : mrbc_irep) (pos' : Z) (w' : machine) :
  NDEBUG cfg = false -> MRBC_INT64 cfg = true ->
  load_irep_0 fuel cfg mem pos w = Ret (Some t, pos', w') ->
  Forall (fun r => Forall written (pools r)) (preorder t).
Proof.
  intros Hn Hi. apply load_irep_0_records.
  intros q v r p1 v1 cs E. unfold load_irep_1 in E. cbv zeta in E.
  apply bind_inv in E as (a1 & u1 & _ & E).
  apply bind_inv in E as (a2 & u2 & _ & E).
  apply bind_inv in E as (a3 & u3 & _ & E).
  apply bind_inv in E as ([pl pe] & u4 & E4 & E).
  apply ret_inv in E as (<- & _ & _).
  exact (load_pools_written _ _ _ Hn Hi _ _ _ _ _ E4).
Qed.

Lemma checked_wide_build_writes_every_object_witness :
  Forall (fun r => Forall written (pools r))
    (preorder (Irep 1 2 0 0 0 1 134217774 [Obj_fixnum 4294967298] 134217785 [])).
Proof.
  exact (checked_wide_build_writes_every_object full_build (blob_at flash int64_pool)
           2 (padd flash 32) (fresh roomy)
           (Irep 1 2 0 0 0 1 134217774 [Obj_fixnum 4294967298] 134217785 [])
           (padd flash 59) (fresh (repeat (Some 0) 13)) eq_refl eq_refl eq_refl).
Defined.

(** ** What a whole tree takes from the heap *)

Lemma records_in_a_row_allocations cfg mem n :
  forall pos w rs p' w',
    records_in_a_row cfg mem n pos w = Ret (Some (rs, p'), w') ->
    exists gs, heap w = map Some gs ++ heap w' /\
               List.length gs = list_sum (map allocs_of rs).
Proof.
  induction n as [|n IH]; intros pos w rs p' w' H; cbn [records_in_a_row] in H.
  - apply ret_inv in H as (<- & _ & <-). now exists [].
  - apply bind_inv in H as ([r q] & v1 & E1 & H).
    apply bind_inv in H as ([rs0 q0] & v2 & E2 & H).
    apply ret_inv in H as (<- & _ & <-).
    destruct (load_irep_1_takes _ _ _ _ _ _ _ E1) as ((g1 & H1 & L1) & _).
    destruct (IH _ _ _ _ _ E2) as (g2 & H2 & L2).
    exists (g1 ++ g2). split.
    + now rewrite H1, H2, map_app, app_assoc.
    + change (list_sum (map allocs_of (r :: rs0)))
        with (allocs_of r + list_sum (map allocs_of rs0))%nat.
      rewrite length_app. lia.
Qed.

Lemma allocs_of_bare l : map allocs_of (map bare l) = map allocs_of l.
Proof. rewrite map_map. apply map_ext. intros []. reflexivity. Qed.

(** X10.  A call of [load_irep_0] that returns a tree without NULL slot has
    taken from the front of the heap exactly the blocks its records need,
    [allocs_of] summed over the records of the tree, and nothing else. *)
Theorem tree_allocations (cfg : build) (mem : memory) (fuel : nat) (pos : Z)
    (w : machine) (t : mrbc_irep) (pos' : Z) (w' : machine) :
  load_irep_0 fuel cfg mem pos w = Ret (Some t, pos', w') ->
  complete t ->
  exists gs, heap w = map Some gs ++ heap w' /\
             List.length gs = list_sum (map allocs_of (preorder t)).
Proof.
  intros H Hc.
  pose proof (load_irep_0_in_a_row _ _ _ _ _ _ _ _ H Hc) as Hr.
  destruct (records_in_a_row_allocations _ _ _ _ _ _ _ _ Hr) as (gs & Hh & Hl).
  exists gs. split; [exact Hh|]. now rewrite Hl, allocs_of_bare.
Qed.

Lemma tree_allocations_witness :
  exists gs, heap (fresh roomy) = map Some gs ++ heap (fresh (repeat (Some 0) 12)) /\
             List.length gs = list_sum (map allocs_of (preorder tree_D)).
Proof.
  exact (tree_allocations full_build (blob_at flash scenario_D) 3 (padd flash 32)
           (fresh roomy) tree_D (padd flash 86) (fresh (repeat (Some 0) 12))
           eq_refl complete_tree_D).
Defined.

(** ** Failures and their diagnostics *)

Lemma framed_console {A} (c : machine -> outcome (A * machine)) w a w' :
  framed c -> c w = Ret (a, w') -> exists log, console w' = console w ++ log.
Proof.
  intros Hf H. rewrite (Hf w) in H.
  destruct (c (core w)) as [[b w1]| |]; try discriminate H.
  injection H as _ <-. now exists (console w1).
Qed.

Lemma loud_bind {A B} (c : loader A) (k : A -> loader B) :
  framed c -> loud c -> (forall a, loud (k a)) -> loud (bind c k).
Proof.
  intros Hf Hc Hk w w' H. unfold bind in H.
  destruct (c w) as [[[a|] w1]| |] eqn:E; try discriminate H.
  - destruct (framed_console _ _ _ _ Hf E) as [l1 C1].
    destruct (Hk a _ _ H) as (l2 & line & Hin & C2).
    exists (l1 ++ l2), line. split; [exact Hin|].
    now rewrite C2, C1, !app_assoc.
  - injection H as <-. exact (Hc _ _ E).
Qed.

Lemma loud_ret {A} (a : A) : loud (ret a).
Proof. intros w w' H. discriminate H. Qed.

Lemma loud_alloc_or_null line :
  In line alloc_lines -> loud (alloc_or_null line mrbc_alloc).
Proof.
  intros Hin w w' H. unfold alloc_or_null, mrbc_alloc in H.
  destruct (heap w) as [|[g|] h]; try discriminate H; injection H as <-;
    exists [], line; auto.
Qed.

Lemma loud_pool_switch cfg mem tt g p : loud (pool_switch cfg mem tt g p).
Proof.
  unfold pool_switch.
  repeat match goal with
         | |- loud (if ?b then _ else _) => destruct b
         end; intros w w' H; discriminate H.
Qed.

Lemma loud_load_pools cfg mem n : forall p, loud (load_pools cfg mem n p).
Proof.
  induction n as [|n IH]; intro p; cbn [load_pools]; [apply loud_ret|].
  apply loud_bind; [apply framed_alloc_or_null | apply loud_alloc_or_null; cbn; auto |].
  intro g.
  apply loud_bind; [apply framed_pool_switch | apply loud_pool_switch |].
  intros [obj q].
  apply loud_bind; [apply framed_load_pools | apply IH |].
  intros [objs q']. apply loud_ret.
Qed.

Lemma loud_optional line (n : Z) :
  In line alloc_lines ->
  loud (if n =? 0 then ret 0 else alloc_or_null line mrbc_alloc).
Proof. intro H. destruct (n =? 0); [apply loud_ret | now apply loud_alloc_or_null]. Qed.

Lemma framed_optional line (n : Z) :
  framed (if n =? 0 then ret 0 else alloc_or_null line mrbc_alloc).
Proof. destruct (n =? 0); auto with framed. Qed.

Lemma loud_load_irep_1 cfg mem pos : loud (load_irep_1 cfg mem pos).
Proof.
  unfold load_irep_1. cbv zeta.
  apply loud_bind; [apply framed_alloc_or_null | apply loud_alloc_or_null; cbn; auto |].
  intros _.
  apply loud_bind; [apply framed_optional | apply loud_optional; cbn; auto |].
  intros _.
  apply loud_bind; [apply framed_optional | apply loud_optional; cbn; auto |].
  intros _.
  apply loud_bind; [apply framed_load_pools | apply loud_load_pools |].
  intros [pl q]. apply loud_ret.
Qed.

Lemma load_irep_0_null cfg mem fuel pos w pos' w' :
  load_irep_0 fuel cfg mem pos w = Ret (None, pos', w') ->
  exists log line, In line alloc_lines /\ console w' = console w ++ log ++ [line].
Proof.
  destruct fuel as [|f]; cbn [load_irep_0]; [discriminate|].
  destruct (load_irep_1 cfg mem pos w) as [[[[r p1]|] w1]| |] eqn:E1;
    try discriminate.
  - destruct (load_reps (load_irep_0 f cfg mem) (Z.to_nat (rlen r)) p1 w1)
      as [[[cs p2] w2]| |]; discriminate.
  - intro H. injection H as _ <-. exact (loud_load_irep_1 _ _ _ _ _ E1).
Qed.

Lemma load_irep_failure fuel cfg mem pos w r q w' :
  load_irep fuel cfg mem pos w = Ret (r, q, w') -> r <> 0 ->
  section_failed w w'.
Proof.
  unfold load_irep, section_failed.
  destruct (negb (memcmp mem (padd (padd pos 4) 4) tag_0300 =? 0)).
  { intros H _. injection H as _ _ <-. exists [], 271. auto. }
  destruct (load_irep_0 fuel cfg mem _ w) as [[[[t|] pe] w1]| |] eqn:E;
    intros H Hr; try discriminate H.
  - injection H as <- _ _. now contradiction Hr.
  - injection H as _ _ <-.
    destruct (load_irep_0_null _ _ _ _ _ _ _ E) as (log & line & Hin & Hc).
    exists log, line. split; [exact Hc|]. right. auto.
Qed.

Lemma section_failed_later w w1 w' :
  grows w w1 -> section_failed w1 w' -> section_failed w w'.
Proof.
  intros (_ & [l1 C1] & _) (log & line & C & Hk).
  exists (l1 ++ log), line. split; [|exact Hk].
  now rewrite C, C1, !app_assoc.
Qed.

Lemma section_loop_failure cfg mem :
  forall fuel ret p w r w',
    section_loop fuel cfg mem ret p w = Ret (r, w') -> r <> 0 ->
    (ret <> 0 /\ r = ret /\ w' = w) \/ section_failed w w'.
Proof.
  induction fuel as [|f IH]; intros ret p w r w' H Hr; cbn [section_loop] in H;
    destruct (Z.eqb_spec ret 0) as [->|Hne]; cbn [negb] in H;
    try discriminate H; try (injection H as <- <-; left; auto).
  unfold section_step in H.
  destruct (memcmp mem p tag_IREP =? 0).
  - destruct (load_irep f cfg mem p w) as [[[r1 q] v]| |] eqn:E; try discriminate H.
    right. destruct (IH _ _ _ _ _ H Hr) as [(Hn & -> & ->) | Hs].
    + exact (load_irep_failure _ _ _ _ _ _ _ _ E Hn).
    + exact (section_failed_later _ _ _ (proj1 (load_irep_grows _ _ _ _ _ _ _ _ E)) Hs).
  - destruct (memcmp mem p tag_LVAR =? 0).
    + cbn [load_lvar] in H. destruct (IH _ _ _ _ _ H Hr) as [(Hn & _) | Hs];
        [now contradiction Hn | now right].
    + destruct (memcmp mem p tag_END =? 0).
      * injection H as <- _. now contradiction Hr.
      * destruct (IH _ _ _ _ _ H Hr) as [(Hn & _) | Hs];
          [now contradiction Hn | now right].
Qed.

(** X11.  Every failure status is announced, and the last line printed
    tells what failed.  Whenever [mrbc_load_mrb] returns a status other than
    0, the console ends with a line printed during the call: a line of
    [load_header] (65, 74, 78), and then it is the only line printed and
    [vm->irep] is untouched; or line 271 of the revision check; or the line
    of a failed allocation (124, 139, 154, 164), and then [vm->irep] has
    been set to NULL, whatever tree it held before. *)
Theorem failures_are_announced (cfg : build) (mem : memory) (fuel : nat)
    (w : machine) (p : Z) (r : Z) (w' : machine) :
  mrbc_load_mrb fuel cfg mem w p = Ret (r, w') -> r <> 0 ->
  exists log line,
    console w' = console w ++ log ++ [line] /\
    ((In line header_lines /\ log = [] /\ vm_irep w' = vm_irep w) \/
     line = 271 \/
     (In line alloc_lines /\ vm_irep w' = None)).
Proof.
  unfold mrbc_load_mrb, load_header. intros H Hr.
  destruct (negb (memcmp mem p tag_RITE02 =? 0)).
  { destruct fuel; injection H as _ <-; exists [], 65; cbn; auto 6. }
  destruct (negb (memcmp mem (padd p 12) tag_MATZ =? 0)).
  { destruct fuel; injection H as _ <-; exists [], 74; cbn; auto 6. }
  destruct (negb (memcmp mem (padd p 16) tag_0000 =? 0)).
  { destruct fuel; injection H as _ <-; exists [], 78; cbn; auto 7. }
  destruct (section_loop_failure _ _ _ _ _ _ _ _ H Hr)
    as [(Hn & _) | (log & line & C & Hk)]; [now contradiction Hn|].
  exists log, line. split; [exact C | now right].
Qed.

Lemma failures_are_announced_witness :
  exists log line,
    console (Machine None flash [Some 0] [7; 139])
    = console (Machine (Some tree_D) 0 [Some 0; None; Some 0] [7]) ++ log ++ [line] /\
    ((In line header_lines /\ log = [] /\
      vm_irep (Machine None flash [Some 0] [7; 139])
      = vm_irep (Machine (Some tree_D) 0 [Some 0; None; Some 0] [7])) \/
     line = 271 \/
     (In line alloc_lines /\ vm_irep (Machine None flash [Some 0] [7; 139]) = None)).
Proof.
  refine (failures_are_announced full_build (blob_at flash scenario_D) 4
            (Machine (Some tree_D) 0 [Some 0; None; Some 0] [7]) flash (-1)
            (Machine None flash [Some 0] [7; 139]) _ _).
  - reflexivity.
  - discriminate.
Defined.

(** ** Success *)

Lemma load_irep_ok_cursor fuel cfg mem pos w q w' :
  load_irep fuel cfg mem pos w = Ret (0, q, w') ->
  q = padd pos (bin_to_uint32 mem (padd pos 4)).
Proof.
  unfold load_irep. rewrite padd_to_int_0.
  destruct (negb (memcmp mem (padd (padd pos 4) 4) tag_0300 =? 0)).
  { intro H. discriminate H. }
  destruct (load_irep_0 fuel cfg mem _ w) as [[[[t|] pe] w1]| |];
    intro H; try discriminate H.
  now injection H as <- _.
Qed.

Lemma section_loop_success cfg mem :
  forall fuel ret p w w',
    section_loop fuel cfg mem ret p w = Ret (0, w') ->
    ret = 0 /\ exists q, section_path mem p q /\ has_bytes mem q tag_END.
Proof.
  induction fuel as [|f IH]; intros ret p w w' H; cbn [section_loop] in H;
    destruct (Z.eqb_spec ret 0) as [->|Hne]; cbn [negb] in H;
    try discriminate H; try (injection H as H1 _; now contradiction Hne).
  split; [reflexivity|]. unfold section_step in H.
  destruct (memcmp mem p tag_IREP =? 0) eqn:Ei.
  - destruct (load_irep f cfg mem p w) as [[[r1 q1] v]| |] eqn:E; try discriminate H.
    destruct (IH _ _ _ _ H) as (-> & q & Hp & He).
    apply load_irep_ok_cursor in E. subst q1.
    exists q. split; [|exact He].
    apply Path_section; [|exact Hp].
    left. apply memcmp_spec. now apply Z.eqb_eq.
  - destruct (memcmp mem p tag_LVAR =? 0) eqn:El.
    + cbn [load_lvar] in H. destruct (IH _ _ _ _ H) as (_ & q & Hp & He).
      exists q. split; [|exact He].
      apply Path_section; [|exact Hp].
      right. apply memcmp_spec. now apply Z.eqb_eq.
    + destruct (memcmp mem p tag_END =? 0) eqn:Ee.
      * exists p. split; [constructor|]. apply memcmp_spec. now apply Z.eqb_eq.
      * exact (proj2 (IH _ _ _ _ H)).
Qed.

(** X12.  [mrbc_load_mrb] returns 0 only if the three tags of the header
    matched and the cursor of the section loop, going from offset 20 over
    IREP and LVAR sections by their size fields, came to stand on "END\0":
    the address where the marker stands is the cursor itself, and no other
    way out of the loop gives status 0. *)
Theorem success_needs_header_and_end (cfg : build) (mem : memory) (fuel : nat)
    (w : machine) (p : Z) (w' : machine) :
  mrbc_load_mrb fuel cfg mem w p = Ret (0, w') ->
  header_ok mem p /\
  exists q, section_path mem (padd p 20) q /\ has_bytes mem q tag_END.
Proof.
  unfold mrbc_load_mrb. intro H.
  destruct (load_header mem p (set_mrb p w)) as [[r q] v] eqn:E.
  destruct (section_loop_success _ _ _ _ _ _ _ H) as [-> He].
  unfold load_header in E.
  destruct (memcmp mem p tag_RITE02 =? 0) eqn:E1; cbn [negb] in E; [|discriminate E].
  destruct (memcmp mem (padd p 12) tag_MATZ =? 0) eqn:E2; cbn [negb] in E;
    [|discriminate E].
  destruct (memcmp mem (padd p 16) tag_0000 =? 0) eqn:E3; cbn [negb] in E;
    [|discriminate E].
  injection E as <- _. split; [|exact He].
  apply Z.eqb_eq in E1, E2, E3. repeat split; now apply memcmp_spec.
Qed.

Lemma success_needs_header_and_end_witness :
  header_ok (blob_at flash two_sections) flash /\
  exists q, section_path (blob_at flash two_sections) (padd flash 20) q /\
            has_bytes (blob_at flash two_sections) q tag_END.
Proof.
  exact (success_needs_header_and_end full_build (blob_at flash two_sections) 4
           (fresh roomy) flash
           (Machine (Some (Irep 1 2 0 0 0 0 134217774 [] 134217776 []))
              flash (repeat (Some 0) 15) []) eq_refl).
Defined.

(** ** An IREP section of size zero *)

Lemma load_reps_heap_le child n :
  (forall pos, consumes (child pos)) ->
  forall pos w a w',
    load_reps child n pos w = Ret (a, w') ->
    (List.length (heap w') <= List.length (heap w))%nat.
Proof.
  intros Hc pos w a w' H.
  destruct (consumes_load_reps child n Hc pos _ _ _ H) as [used ->].
  rewrite length_app. lia.
Qed.

Lemma load_irep_0_takes_one cfg mem fuel pos w t pos' w' :
  load_irep_0 fuel cfg mem pos w = Ret (Some t, pos', w') ->
  (List.length (heap w') < List.length (heap w))%nat.
Proof.
  destruct fuel as [|f]; cbn [load_irep_0]; [discriminate|].
  destruct (load_irep_1 cfg mem pos w) as [[[[r p1]|] w1]| |] eqn:E1;
    try discriminate.
  destruct (load_reps (load_irep_0 f cfg mem) (Z.to_nat (rlen r)) p1 w1)
    as [[[cs p2] w2]| |] eqn:E2; try discriminate.
  intro H. injection H as _ _ <-.
  destruct (load_irep_1_takes _ _ _ _ _ _ _ E1) as ((gs & Hh & Hg) & _).
  pose proof (load_reps_heap_le _ _ (consumes_load_irep_0 cfg mem f) _ _ _ _ E2) as Hle.
  rewrite Hh, length_app, length_map, Hg. unfold allocs_of. lia.
Qed.

(** X13.  An IREP section with the right revision and a size field of zero
    is decoded over and over, each pass taking at least one block, until
    the heap gives out: with fuel beyond the length of the heap the loop
    comes back, and never with status 0; it returns -1 or is stopped by the
    assertion. *)
Theorem irep_of_size_zero_exhausts_heap (cfg : build) (mem : memory) :
  forall (f : nat) (pos : Z) (w : machine),
    has_bytes mem pos tag_IREP ->
    bin_to_uint32 mem (padd pos 4) = 0 ->
    has_bytes mem (padd pos 8) tag_0300 ->
    (List.length (heap w) < f)%nat ->
    section_loop (S f) cfg mem 0 pos w = Abort \/
    exists w', section_loop (S f) cfg mem 0 pos w = Ret (-1, w').
Proof.
  induction f as [|f IH]; intros pos w Ht Hs Hr Hf; [lia|].
  cbn [section_loop Z.eqb negb]. unfold section_step.
  rewrite (memcmp_eqb_true _ _ _ Ht). unfold load_irep.
  rewrite Hs, padd_padd. change (4 + 4) with 8.
  rewrite (memcmp_eqb_true _ _ _ Hr). cbn [negb].
  pose proof (load_irep_0_returns cfg mem (S f) (padd (padd pos 8) 4) w Hf) as Hb.
  destruct (load_irep_0 (S f) cfg mem (padd (padd pos 8) 4) w)
    as [[[[t|] pe] w1]| |] eqn:E; [| |now left|now contradiction Hb].
  - apply load_irep_0_takes_one in E.
    change (to_int 0) with 0.
    apply IH.
    + now apply has_bytes_padd_0.
    + now rewrite padd_padd.
    + rewrite padd_padd. exact Hr.
    + cbn. lia.
  - right. eexists. destruct f; reflexivity.
Qed.

Lemma irep_of_size_zero_exhausts_heap_witness :
  section_loop 18 full_build (blob_at flash irep_zero) 0 (padd flash 20) (fresh roomy)
  = Abort \/
  exists w',
    section_loop 18 full_build (blob_at flash irep_zero) 0 (padd flash 20) (fresh roomy)
    = Ret (-1, w').
Proof.
  apply (irep_of_size_zero_exhausts_heap full_build (blob_at flash irep_zero) 17
           (padd flash 20) (fresh roomy)).
  - reflexivity.
  - reflexivity.
  - reflexivity.
  - cbn. lia.
Defined.

(** ** Integer pool entries *)

Lemma load8_bound mem p : 0 <= load8 mem p < 256.
Proof. unfold load8. apply Z.mod_pos_bound. lia. Qed.

Lemma land_shiftl_low hi lo n :
  0 <= n -> 0 <= lo < 2 ^ n -> Z.land (Z.shiftl hi n) lo = 0.
Proof.
  intros Hn Hlo. apply Z.bits_inj'. intros m Hm.
  rewrite Z.land_spec, Z.bits_0.
  destruct (Z.lt_ge_cases m n) as [Hlt | Hge].
  - now rewrite Z.shiftl_spec_low.
  - assert (E : Z.testbit lo m = false).
    { destruct (Z.eq_dec lo 0) as [-> | Hz]; [apply Z.bits_0|].
      apply Z.bits_above_log2; [lia|].
      assert (Z.log2 lo < n) by (apply Z.log2_lt_pow2; lia). lia. }
    rewrite E. apply andb_false_r.
Qed.

Lemma lor_shiftl_add hi lo n :
  0 <= n -> 0 <= lo < 2 ^ n -> Z.lor (Z.shiftl hi n) lo = hi * 2 ^ n + lo.
Proof.
  intros Hn Hlo.
  rewrite <- Z.lxor_lor by now apply land_shiftl_low.
  rewrite <- Z.add_nocarry_lxor by now apply land_shiftl_low.
  now rewrite Z.shiftl_mul_pow2.
Qed.

Lemma bin_to_uint32_bound mem p : 0 <= bin_to_uint32 mem p < 2 ^ 32.
Proof.
  unfold bin_to_uint32.
  pose proof (load8_bound mem p). pose proof (load8_bound mem (padd p 1)).
  pose proof (load8_bound mem (padd p 2)). pose proof (load8_bound mem (padd p 3)).
  rewrite (lor_shiftl_add (load8 mem (padd p 2)) _ 8) by lia.
  rewrite (lor_shiftl_add (load8 mem (padd p 1)) _ 16) by lia.
  rewrite (lor_shiftl_add (load8 mem p) _ 24) by lia.
  lia.
Qed.

(** X14.  With MRBC_INT64 (a 64-bit [mrbc_int]), an IREP_TT_INT64 entry is
    read as one big-endian two's complement number: with [hi] and [lo] the
    two 32-bit reads, the object holds [hi * 2^32 + lo] if that is below
    2^63 and [hi * 2^32 + lo - 2^64] otherwise; no bit is lost by the shift
    and the cursor moves by 8. *)
Theorem int64_entry_value (cfg : build) (mem : memory) (g : Z) (p : Z) (w : machine) :
  MRBC_INT64 cfg = true ->
  let hi := bin_to_uint32 mem p in
  let lo := bin_to_uint32 mem (padd p 4) in
  let v := hi * 2 ^ 32 + lo in
  pool_switch cfg mem IREP_TT_INT64 g p w
  = Ret (Some (Obj_fixnum (if v <? 2 ^ 63 then v else v - 2 ^ 64), padd p 8), w).
Proof.
  intros Hi hi lo v. rewrite pool_switch_int64_wide by exact Hi.
  fold hi. fold lo.
  pose proof (bin_to_uint32_bound mem p) as Hhi. fold hi in Hhi.
  pose proof (bin_to_uint32_bound mem (padd p 4)) as Hlo. fold lo in Hlo.
  assert (E1 : wrap_unsigned 64 hi = hi) by (apply Z.mod_small; lia).
  rewrite E1, Z.shiftl_mul_pow2 by lia.
  assert (E2 : wrap_unsigned 64 (hi * 2 ^ 32) = hi * 2 ^ 32)
    by (apply Z.mod_small; lia).
  rewrite E2, <- (Z.shiftl_mul_pow2 hi 32), lor_shiftl_add by lia.
  fold v. do 4 f_equal. unfold wrap_signed.
  change (2 ^ (64 - 1)) with (2 ^ 63).
  assert (Hv : 0 <= v < 2 ^ 64) by (unfold v; lia).
  destruct (Z.ltb_spec v (2 ^ 63)).
  - rewrite Z.mod_small by lia. f_equal. lia.
  - replace (v + 2 ^ 63) with (v - 2 ^ 63 + 1 * 2 ^ 64) by lia.
    rewrite Z_mod_plus_full, Z.mod_small by lia. f_equal. lia.
Qed.

Lemma int64_entry_value_witness :
  pool_switch full_build (blob_at flash [255; 255; 255; 255; 255; 255; 255; 254])
    IREP_TT_INT64 0 flash (fresh roomy)
  = Ret (Some (Obj_fixnum (-2), padd flash 8), fresh roomy).
Proof.
  exact (int64_entry_value full_build
           (blob_at flash [255; 255; 255; 255; 255; 255; 255; 254]) 0 flash
           (fresh roomy) eq_refl).
Defined.

(** X15.  An IREP_TT_INT32 entry moves the cursor by 4 and holds the
    big-endian 32-bit read [v] converted to [mrbc_int]: without MRBC_INT64
    (a 32-bit [mrbc_int]) that is the two's complement value, [v] below
    2^31 and [v - 2^32] from there on; with MRBC_INT64 the unsigned [v] is
    widened as it is, so the object is never negative. *)
Theorem int32_entry_value (cfg : build) (mem : memory) (g : Z) (p : Z) (w : machine) :
  let v := bin_to_uint32 mem p in
  pool_switch cfg mem IREP_TT_INT32 g p w
  = Ret (Some (Obj_fixnum (if MRBC_INT64 cfg then v
                           else if v <? 2 ^ 31 then v else v - 2 ^ 32),
               padd p 4), w).
Proof.
  intro v. unfold pool_switch.
  change (IREP_TT_INT32 =? IREP_TT_STR) with false.
  change (IREP_TT_INT32 =? IREP_TT_SSTR) with false.
  change (IREP_TT_INT32 =? IREP_TT_INT32) with true.
  rewrite andb_false_r. unfold ret, to_mrbc_int. fold v.
  pose proof (bin_to_uint32_bound mem p) as Hv. fold v in Hv.
  do 4 f_equal. unfold wrap_signed.
  change (2 ^ (64 - 1)) with (2 ^ 63). change (2 ^ (32 - 1)) with (2 ^ 31).
  destruct (MRBC_INT64 cfg).
  - rewrite Z.mod_small by lia. f_equal. lia.
  - destruct (Z.ltb_spec v (2 ^ 31)).
    + rewrite Z.mod_small by lia. f_equal. lia.
    + replace (v + 2 ^ 31) with (v - 2 ^ 31 + 1 * 2 ^ 32) by lia.
      rewrite Z_mod_plus_full, Z.mod_small by lia. f_equal. lia.
Qed.

Lemma int32_entry_value_witness :
  pool_switch narrow_build (blob_at flash int32_pool) IREP_TT_INT32 0 (padd flash 1)
    (fresh roomy)
  = Ret (Some (Obj_fixnum (-1), padd flash 5), fresh roomy)
  /\
  pool_switch full_build (blob_at flash int32_pool) IREP_TT_INT32 0 (padd flash 1)
    (fresh roomy)
  = Ret (Some (Obj_fixnum 4294967295, padd flash 5), fresh roomy).
Proof.
  split.
  - exact (int32_entry_value narrow_build (blob_at flash int32_pool) 0 (padd flash 1)
             (fresh roomy)).
  - exact (int32_entry_value full_build (blob_at flash int32_pool) 0 (padd flash 1)
             (fresh roomy)).
Defined.

(** ** NULL slots and the console *)

Lemma app_eq_self {A} (l l1 l2 : list A) :
  l ++ l1 ++ l2 = l -> l1 = [] /\ l2 = [].
Proof.
  intro H. rewrite <- (app_nil_r l) in H at 2. apply app_inv_head in H.
  now apply app_eq_nil in H.
Qed.

Lemma load_reps_quiet child n :
  (forall pos, framed (child pos)) ->
  (forall pos w c pos' w',
      child pos w = Ret (c, pos', w') -> console w' = console w ->
      exists t, c = Some t /\ complete t) ->
  forall pos w cs pos' w',
    load_reps child n pos w = Ret (cs, pos', w') -> console w' = console w ->
    Forall (fun c => exists t, c = Some t /\ complete t) cs.
Proof.
  intros Hf Hc. induction n as [|n IH]; intros pos w cs pos' w' H Hq; cbn in H.
  - injection H as <- _ _. constructor.
  - destruct (child pos w) as [[[c p1] w1]| |] eqn:Ec; try discriminate H.
    destruct (load_reps child n p1 w1) as [[[cs1 p2] w2]| |] eqn:Er;
      try discriminate H.
    injection H as <- _ <-.
    destruct (framed_console _ _ _ _ (Hf pos) Ec) as [l1 C1].
    destruct (framed_console _ _ _ _ (framed_load_reps child n Hf p1) Er) as [l2 C2].
    rewrite C2, C1, <- app_assoc in Hq. apply app_eq_self in Hq as [-> ->].
    rewrite app_nil_r in C1, C2. constructor.
    + exact (Hc _ _ _ _ _ Ec C1).
    + exact (IH _ _ _ _ _ Er C2).
Qed.

(** X16.  A NULL child slot never comes silently: if [load_irep_0] returns
    a tree and printed nothing on the way, no slot of the tree is NULL. *)
Theorem quiet_decode_is_complete (cfg : build) (mem : memory) :
  forall (fuel : nat) (pos : Z) (w : machine) (t : mrbc_irep) (pos' : Z) (w' : machine),
    load_irep_0 fuel cfg mem pos w = Ret (Some t, pos', w') ->
    console w' = console w ->
    complete t.
Proof.
  induction fuel as [|f IH]; intros pos w t pos' w' H Hq; cbn [load_irep_0] in H.
  - discriminate H.
  - destruct (load_irep_1 cfg mem pos w) as [[[[r p1]|] w1]| |] eqn:E1;
      try discriminate H.
    destruct (load_reps (load_irep_0 f cfg mem) (Z.to_nat (rlen r)) p1 w1)
      as [[[cs p2] w2]| |] eqn:Er; try discriminate H.
    injection H as <- _ <-.
    destruct (framed_console _ _ _ _ (framed_load_irep_1 cfg mem pos) E1) as [l1 C1].
    destruct (framed_console _ _ _ _
                (framed_load_reps _ _ (framed_load_irep_0 cfg mem f) p1) Er) as [l2 C2].
    rewrite C2, C1, <- app_assoc in Hq. apply app_eq_self in Hq as [-> ->].
    rewrite app_nil_r in C1, C2.
    constructor. cbn [reps set_reps].
    refine (load_reps_quiet _ _ (framed_load_irep_0 cfg mem f) _ _ _ _ _ _ Er C2).
    intros q v c q' v' Hc Hv. destruct c as [t'|].
    + exists t'. split; [reflexivity|]. exact (IH _ _ _ _ _ Hc Hv).
    + destruct (load_irep_0_null _ _ _ _ _ _ _ Hc) as (log & line & _ & Hl).
      rewrite Hv in Hl. symmetry in Hl. apply app_eq_self in Hl as [_ Hl].
      discriminate Hl.
Qed.

Lemma quiet_decode_is_complete_witness : complete tree_D.
Proof.
  exact (quiet_decode_is_complete full_build (blob_at flash scenario_D) 3
           (padd flash 32) (fresh roomy) tree_D (padd flash 86)
           (fresh (repeat (Some 0) 12)) eq_refl eq_refl).
Defined.
